(** * Shallow embedding of the streaming playout engine of [src/src/index.tsx]

    The component [PromptDjApp] keeps its playback state in mutable fields
    and reacts to asynchronous events (server messages, decode completions,
    button clicks, animation frames).  Each event handler is embedded as a
    function on an explicit record of those fields; an event whose callback
    cannot be pending (a decode that was never started, a frame that was not
    requested) is refused with [None].

    Time: the [AudioContext] is created with [sampleRate: 48000]; every
    instant and every duration is counted here in sample frames of that
    clock, so the floating-point seconds of the source become exact integers
    ([bufferTime = 1.0] second is 48000 frames). *)

From Stdlib Require Import ZArith QArith Qround Qminmax Lqa Psatz List Permutation
  Bool Lia String Ascii DecimalString DecimalNat.
From Equations Require Import Equations.
Import ListNotations.
Open Scope Z_scope.

Notation "'let*' x ':=' m 'in' k" :=
  (match m with Some x => k | None => None end)
  (at level 200, x pattern, m at level 100, k at level 200).

(** ** Bytes and the [DataView] of [writeWavHeader] *)

Module Wav.

(** Replace the element at index [i]; the callers check the bound first. *)
Fixpoint replace_at (l : list Z) (i : nat) (x : Z) : list Z :=
  match l, i with
  | [], _ => []
  | _ :: t, O => x :: t
  | y :: t, S i' => y :: replace_at t i' x
  end.

(** [view.setUintN(off, v, true)]: the [n] low-order bytes of [v] (its
    value modulo [2^(8n)], which is what [ToUint8/16/32] keep), least
    significant first.  A write past the end of the view throws a
    [RangeError]: [None]. *)
Fixpoint write_le (view : list Z) (off : nat) (n : nat) (v : Z) : list Z :=
  match n with
  | O => view
  | S n' => write_le (replace_at view off (Z.land v 255)) (S off) n' (Z.shiftr v 8)
  end.

Definition setUintLE (view : list Z) (off : Z) (n : nat) (v : Z) : option (list Z) :=
  if (0 <=? off) && (off + Z.of_nat n <=? Z.of_nat (List.length view))
  then Some (write_le view (Z.to_nat off) n v)
  else None.

Definition setUint8 view off v := setUintLE view off 1 v.
Definition setUint16 view off v := setUintLE view off 2 v.
Definition setUint32 view off v := setUintLE view off 4 v.

Fixpoint char_codes (s : string) : list Z :=
  match s with
  | EmptyString => []
  | String c s' => Z.of_nat (nat_of_ascii c) :: char_codes s'
  end.

(** [writeString(offset, str)]: [setUint8(offset + i, str.charCodeAt(i))]. *)
Fixpoint writeString_codes (view : list Z) (offset : Z) (cs : list Z) : option (list Z) :=
  match cs with
  | [] => Some view
  | c :: cs' => let* v := setUint8 view offset c in writeString_codes v (offset + 1) cs'
  end.

Definition writeString view offset str := writeString_codes view offset (char_codes str).

(** [writeWavHeader(dataLength, sampleRate, numChannels, bitsPerSample)];
    [bitsPerSample / 8] is exact at the only call, [bitsPerSample = 16]. *)
Definition writeWavHeader (dataLength sampleRate numChannels bitsPerSample : Z)
  : option (list Z) :=
  let view := List.repeat 0 44 in
  let* view := writeString view 0 "RIFF" in
  let* view := setUint32 view 4 (36 + dataLength) in
  let* view := writeString view 8 "WAVE" in
  let* view := writeString view 12 "fmt " in
  let* view := setUint32 view 16 16 in
  let* view := setUint16 view 20 1 in
  let* view := setUint16 view 22 numChannels in
  let* view := setUint32 view 24 sampleRate in
  let* view := setUint32 view 28 (sampleRate * numChannels * (bitsPerSample / 8)) in
  let* view := setUint16 view 32 (numChannels * (bitsPerSample / 8)) in
  let* view := setUint16 view 34 bitsPerSample in
  let* view := writeString view 36 "data" in
  let* view := setUint32 view 40 dataLength in
  Some view.

(** [audioContext.sampleRate]: the context is built with [sampleRate: 48000]. *)
Definition audioContext_sampleRate : Z := 48000.

Definition chunk_length (c : list Z) : Z := Z.of_nat (List.length c).

(** [handleDownloadWav]: the bytes placed in the downloaded [Blob], or
    [None] when it returns early because no chunk was received. *)
Definition handleDownloadWav (receivedAudioChunks : list (list Z)) : option (list Z) :=
  match receivedAudioChunks with
  | [] => None
  | _ =>
    let totalLength := fold_left (fun acc chunk => acc + chunk_length chunk)
                                 receivedAudioChunks 0 in
    let concatenatedData := List.concat receivedAudioChunks in
    let* header := writeWavHeader totalLength audioContext_sampleRate 2 16 in
    Some (header ++ concatenatedData)
  end.

(** The canonical 44-byte RIFF/WAVE header as the spec describes it, with
    little-endian fields written out digit by digit. *)
Definition le16 (v : Z) : list Z := [v mod 256; v / 256].
Definition le32 (v : Z) : list Z :=
  [v mod 256; (v / 256) mod 256; (v / 65536) mod 256; v / 16777216].

Definition canonicalWavHeader (dataLength sampleRate channels bitsPerSample : Z) : list Z :=
  char_codes "RIFF" ++ le32 (36 + dataLength) ++ char_codes "WAVE" ++
  char_codes "fmt " ++ le32 16 ++ le16 1 ++ le16 channels ++ le32 sampleRate ++
  le32 (sampleRate * channels * (bitsPerSample / 8)) ++
  le16 (channels * (bitsPerSample / 8)) ++ le16 bitsPerSample ++
  char_codes "data" ++ le32 dataLength.

End Wav.

(** ** The playback state of [PromptDjApp] *)

Module Player.

(** [type PlaybackState = 'stopped' | 'playing' | 'loading' | 'paused'] *)
Inductive PlaybackState := Stopped | Playing | Loading | Paused.

(** [private readonly bufferTime = 1.0]: one second of frames. *)
Definition bufferTime : Z := 48000.

(** The [0.1] second gain ramps of [pauseAudio] and [loadAudio]. *)
Definition rampTime : Z := 4800.

(** An [AudioBuffer]; [buf_id] is its object identity, [buf_data] the raw
    chunk it was decoded from, [duration] its length in frames. *)
Record AudioBuffer := mkBuffer {
  buf_id : nat;
  buf_data : list Z;
  duration : Z
}.

(** An [AudioBufferSourceNode] after [source.start(src_when, src_offset)]. *)
Record Source := mkSource {
  src_id : nat;
  src_buffer : AudioBuffer;
  src_when : Z;
  src_offset : Z
}.

(** The fields of [PromptDjApp] the engine reads or writes.  [session] says
    whether [this.session] is defined; the gain automation of [outputNode]
    is kept as the target of the last ramp and its end time; the pending
    animation frames, decode promises and connection attempts are the
    callbacks the browser may still run; [nextObjectId] hands out object
    identities (buffers, sources, frame ids, which are never 0). *)
Record St := mkSt {
  playbackState : PlaybackState;
  totalDuration : Z;
  currentPlaybackTime : Z;
  activeSources : list Source;
  decodedAudioBuffers : list AudioBuffer;
  isSeeking : bool;
  streamStartTime : Z;
  session : bool;
  receivedAudioChunks : list (list Z);
  nextStartTime : Z;
  gainTarget : Z;
  gainRampEnd : Z;
  animationFrameId : option nat;
  pendingFrames : list nat;
  pendingDecodes : list (list Z);
  pendingConnects : nat;
  nextObjectId : nat
}.

(** Field updates [s with f := x]. *)
Definition set_playbackState (x : PlaybackState) (s : St) : St :=
  match s with mkSt a0 a1 a2 a3 a4 a5 a6 a7 a8 a9 a10 a11 a12 a13 a14 a15 a16 =>
    mkSt x a1 a2 a3 a4 a5 a6 a7 a8 a9 a10 a11 a12 a13 a14 a15 a16 end.
Definition set_totalDuration (x : Z) (s : St) : St :=
  match s with mkSt a0 a1 a2 a3 a4 a5 a6 a7 a8 a9 a10 a11 a12 a13 a14 a15 a16 =>
    mkSt a0 x a2 a3 a4 a5 a6 a7 a8 a9 a10 a11 a12 a13 a14 a15 a16 end.
Definition set_currentPlaybackTime (x : Z) (s : St) : St :=
  match s with mkSt a0 a1 a2 a3 a4 a5 a6 a7 a8 a9 a10 a11 a12 a13 a14 a15 a16 =>
    mkSt a0 a1 x a3 a4 a5 a6 a7 a8 a9 a10 a11 a12 a13 a14 a15 a16 end.
Definition set_activeSources (x : list Source) (s : St) : St :=
  match s with mkSt a0 a1 a2 a3 a4 a5 a6 a7 a8 a9 a10 a11 a12 a13 a14 a15 a16 =>
    mkSt a0 a1 a2 x a4 a5 a6 a7 a8 a9 a10 a11 a12 a13 a14 a15 a16 end.
Definition set_decodedAudioBuffers (x : list AudioBuffer) (s : St) : St :=
  match s with mkSt a0 a1 a2 a3 a4 a5 a6 a7 a8 a9 a10 a11 a12 a13 a14 a15 a16 =>
    mkSt a0 a1 a2 a3 x a5 a6 a7 a8 a9 a10 a11 a12 a13 a14 a15 a16 end.
Definition set_isSeeking (x : bool) (s : St) : St :=
  match s with mkSt a0 a1 a2 a3 a4 a5 a6 a7 a8 a9 a10 a11 a12 a13 a14 a15 a16 =>
    mkSt a0 a1 a2 a3 a4 x a6 a7 a8 a9 a10 a11 a12 a13 a14 a15 a16 end.
Definition set_streamStartTime (x : Z) (s : St) : St :=
  match s with mkSt a0 a1 a2 a3 a4 a5 a6 a7 a8 a9 a10 a11 a12 a13 a14 a15 a16 =>
    mkSt a0 a1 a2 a3 a4 a5 x a7 a8 a9 a10 a11 a12 a13 a14 a15 a16 end.
Definition set_session (x : bool) (s : St) : St :=
  match s with mkSt a0 a1 a2 a3 a4 a5 a6 a7 a8 a9 a10 a11 a12 a13 a14 a15 a16 =>
    mkSt a0 a1 a2 a3 a4 a5 a6 x a8 a9 a10 a11 a12 a13 a14 a15 a16 end.
Definition set_receivedAudioChunks (x : list (list Z)) (s : St) : St :=
  match s with mkSt a0 a1 a2 a3 a4 a5 a6 a7 a8 a9 a10 a11 a12 a13 a14 a15 a16 =>
    mkSt a0 a1 a2 a3 a4 a5 a6 a7 x a9 a10 a11 a12 a13 a14 a15 a16 end.
Definition set_nextStartTime (x : Z) (s : St) : St :=
  match s with mkSt a0 a1 a2 a3 a4 a5 a6 a7 a8 a9 a10 a11 a12 a13 a14 a15 a16 =>
    mkSt a0 a1 a2 a3 a4 a5 a6 a7 a8 x a10 a11 a12 a13 a14 a15 a16 end.
Definition set_gainTarget (x : Z) (s : St) : St :=
  match s with mkSt a0 a1 a2 a3 a4 a5 a6 a7 a8 a9 a10 a11 a12 a13 a14 a15 a16 =>
    mkSt a0 a1 a2 a3 a4 a5 a6 a7 a8 a9 x a11 a12 a13 a14 a15 a16 end.
Definition set_gainRampEnd (x : Z) (s : St) : St :=
  match s with mkSt a0 a1 a2 a3 a4 a5 a6 a7 a8 a9 a10 a11 a12 a13 a14 a15 a16 =>
    mkSt a0 a1 a2 a3 a4 a5 a6 a7 a8 a9 a10 x a12 a13 a14 a15 a16 end.
Definition set_animationFrameId (x : option nat) (s : St) : St :=
  match s with mkSt a0 a1 a2 a3 a4 a5 a6 a7 a8 a9 a10 a11 a12 a13 a14 a15 a16 =>
    mkSt a0 a1 a2 a3 a4 a5 a6 a7 a8 a9 a10 a11 x a13 a14 a15 a16 end.
Definition set_pendingFrames (x : list nat) (s : St) : St :=
  match s with mkSt a0 a1 a2 a3 a4 a5 a6 a7 a8 a9 a10 a11 a12 a13 a14 a15 a16 =>
    mkSt a0 a1 a2 a3 a4 a5 a6 a7 a8 a9 a10 a11 a12 x a14 a15 a16 end.
Definition set_pendingDecodes (x : list (list Z)) (s : St) : St :=
  match s with mkSt a0 a1 a2 a3 a4 a5 a6 a7 a8 a9 a10 a11 a12 a13 a14 a15 a16 =>
    mkSt a0 a1 a2 a3 a4 a5 a6 a7 a8 a9 a10 a11 a12 a13 x a15 a16 end.
Definition set_pendingConnects (x : nat) (s : St) : St :=
  match s with mkSt a0 a1 a2 a3 a4 a5 a6 a7 a8 a9 a10 a11 a12 a13 a14 a15 a16 =>
    mkSt a0 a1 a2 a3 a4 a5 a6 a7 a8 a9 a10 a11 a12 a13 a14 x a16 end.
Definition set_nextObjectId (x : nat) (s : St) : St :=
  match s with mkSt a0 a1 a2 a3 a4 a5 a6 a7 a8 a9 a10 a11 a12 a13 a14 a15 a16 =>
    mkSt a0 a1 a2 a3 a4 a5 a6 a7 a8 a9 a10 a11 a12 a13 a14 a15 x end.
(** The freshly constructed component: a new [GainNode] has gain 1. *)
Definition initial : St :=
  mkSt Stopped 0 0 [] [] false 0 false [] 0 1 0 None [] [] 0 1.

(** Modelled from the spec: [decodeAudioData] of [./utils], which is not in
    src/ ("converts one raw chunk into a decoded PCM buffer with known
    duration", [duration == sampleCountPerChannel / sampleRate]); the chunk
    holds interleaved 16-bit samples, so a frame is [2 * numChannels] bytes
    and the duration in frames is the byte count divided by that.  It may
    complete at any later moment, in any order with other decodes: the
    pending decodes are kept in [pendingDecodes]. *)
Definition decodeAudioData (id : nat) (data : list Z) (sampleRate numChannels : Z)
  : AudioBuffer :=
  mkBuffer id data (Z.of_nat (List.length data) / 2 / numChannels).

Fixpoint remove_nth {A} (k : nat) (l : list A) : list A :=
  match l, k with
  | [], _ => []
  | _ :: t, O => t
  | x :: t, S k' => x :: remove_nth k' t
  end.

Definition playingOrLoading (p : PlaybackState) : bool :=
  match p with Playing | Loading => true | _ => false end.

Definition pausedOrStopped (p : PlaybackState) : bool :=
  match p with Paused | Stopped => true | _ => false end.

(** [this.animationFrameId = requestAnimationFrame(this.updateProgress)] *)
Definition requestAnimationFrame (s : St) : St :=
  let id := nextObjectId s in
  set_nextObjectId (S id)
    (set_animationFrameId (Some id) (set_pendingFrames (pendingFrames s ++ [id]) s)).

(** [if (this.animationFrameId) cancelAnimationFrame(this.animationFrameId)] *)
Definition cancelCurrentFrame (s : St) : St :=
  match animationFrameId s with
  | Some id => set_pendingFrames (remove Nat.eq_dec id (pendingFrames s)) s
  | None => s
  end.

(** [updateProgress] (lines 624-634); [visualize] only draws. *)
Definition updateProgress (now : Z) (s : St) : St :=
  if isSeeking s then requestAnimationFrame s
  else if negb (playingOrLoading (playbackState s)) then s
  else
    let elapsed := now - streamStartTime s in
    requestAnimationFrame
      (set_currentPlaybackTime (Z.max 0 (Z.min elapsed (totalDuration s))) s).

(** [clearAllSources]: every source is stopped (its [onended] runs later,
    see [sourceEnded]) and the list is emptied. *)
Definition clearAllSources (s : St) : St := set_activeSources [] s.

(** [pauseAudio] (lines 596-604). *)
Definition pauseAudio (now : Z) (s : St) : St :=
  if negb (session s) then s else
  let s := cancelCurrentFrame s in
  let s := set_playbackState Paused s in
  let s := set_gainRampEnd (now + rampTime) (set_gainTarget 0 s) in
  clearAllSources s.

(** [loadAudio] (lines 581-589). *)
Definition loadAudio (now : Z) (s : St) : St :=
  if negb (session s) then s else
  let s := updateProgress now s in
  let s := set_playbackState
             (match playbackState s with Paused => Playing | _ => Loading end) s in
  set_gainRampEnd (now + rampTime) (set_gainTarget 1 s).

(** [stopAudio] (lines 606-620), also [handleReset]. *)
Definition stopAudio (s : St) : St :=
  let s := set_session false s in
  let s := cancelCurrentFrame s in
  let s := clearAllSources s in
  let s := set_playbackState Stopped s in
  let s := set_nextStartTime 0 s in
  let s := set_totalDuration 0 s in
  let s := set_currentPlaybackTime 0 s in
  let s := set_streamStartTime 0 s in
  let s := set_receivedAudioChunks [] s in
  set_decodedAudioBuffers [] s.

(** [connectToSession] up to [await ai.live.music.connect(...)]. *)
Definition connectToSession_begin (s : St) : St :=
  set_pendingConnects (S (pendingConnects s)) (set_playbackState Loading s).

(** The rest of [connectToSession] once the connection settles: on success
    the session is stored and [loadAudio] runs (the awaited throttled calls
    return [undefined]); on failure the state becomes [stopped]. *)
Definition connectToSession_end (ok : bool) (now : Z) (s : St) : St :=
  if ok then loadAudio now (set_session true s) else set_playbackState Stopped s.

(** [handlePlayPause] (lines 569-579). *)
Definition handlePlayPause (now : Z) (s : St) : St :=
  match playbackState s with
  | Playing | Loading => pauseAudio now s
  | Paused | Stopped => if session s then loadAudio now s else connectToSession_begin s
  end.

(** [handleServerMessage] up to the decode call (lines 486-492): [data] is
    the payload of [audioChunks[0].data] after base64 [decode], [None] when
    the message carries no audio. *)
Definition handleServerMessage (data : option (list Z)) (s : St) : St :=
  match data with
  | None => s
  | Some decoded =>
      set_pendingDecodes (pendingDecodes s ++ [decoded])
        (set_receivedAudioChunks (receivedAudioChunks s ++ [decoded]) s)
  end.

(** Lines 496-521 of the [.then] callback, reached in [loading] or [playing].
    The source is pushed at line 500 and started at line 520; nothing in
    between reads [activeSources], so it is added with its start time. *)
Definition scheduleDecoded (b : AudioBuffer) (now : Z) (s : St) : St :=
  let s := set_totalDuration (totalDuration s + duration b) s in
  let sid := nextObjectId s in
  let s := set_nextObjectId (S sid) s in
  let s := if nextStartTime s =? 0 then
             let s := set_nextStartTime (now + bufferTime) s in
             let s := set_streamStartTime (nextStartTime s) s in
             updateProgress now s
           else s in
  let s := match playbackState s with Loading => set_playbackState Playing s | _ => s end in
  let s := if nextStartTime s <? now then set_nextStartTime now s else s in
  let s := set_activeSources (activeSources s ++ [mkSource sid b (nextStartTime s) 0]) s in
  set_nextStartTime (nextStartTime s + duration b) s.

(** The whole [.then(audioBuffer => ...)] callback (lines 492-522). *)
Definition decodeCallback (b : AudioBuffer) (now : Z) (s : St) : St :=
  let s := set_decodedAudioBuffers (decodedAudioBuffers s ++ [b]) s in
  if pausedOrStopped (playbackState s) then s else scheduleDecoded b now s.

(** The [k]-th pending decode resolves at device time [now]. *)
Definition decodeDone (k : nat) (now : Z) (s : St) : option St :=
  let* data := nth_error (pendingDecodes s) k in
  let id := nextObjectId s in
  let s := set_nextObjectId (S id) (set_pendingDecodes (remove_nth k (pendingDecodes s)) s) in
  Some (decodeCallback (decodeAudioData id data 48000 2) now s).

(** The [k]-th pending decode rejects (a malformed chunk, modelled from the
    spec: "a failed chunk is dropped from the Timeline"): the promise has no
    rejection handler, so the [.then] callback never runs and nothing is
    appended; the chunk stays in [receivedAudioChunks]. *)
Definition decodeRejected (k : nat) (s : St) : option St :=
  let* _ := nth_error (pendingDecodes s) k in
  Some (set_pendingDecodes (remove_nth k (pendingDecodes s)) s).

(** [scheduleBuffer] (lines 870-878). *)
Definition scheduleBuffer (b : AudioBuffer) (startTime offset : Z) (s : St) : St :=
  let id := nextObjectId s in
  let s := set_nextObjectId (S id) s in
  let s := set_activeSources (activeSources s ++ [mkSource id b startTime offset]) s in
  set_nextStartTime (startTime + (duration b - offset)) s.

(** The loop of [seekToTime] (lines 850-862). *)
Fixpoint seekLoop (bufs : list AudioBuffer) (seekTime accumulatedDuration : Z)
    (hasScheduled : bool) (s : St) : St :=
  match bufs with
  | [] => s
  | b :: rest =>
      let bufferEnd := accumulatedDuration + duration b in
      if negb hasScheduled && (seekTime <=? bufferEnd) then
        let offset := seekTime - accumulatedDuration in
        seekLoop rest seekTime bufferEnd true (scheduleBuffer b (nextStartTime s) offset s)
      else if hasScheduled then
        seekLoop rest seekTime bufferEnd true (scheduleBuffer b (nextStartTime s) 0 s)
      else seekLoop rest seekTime bufferEnd hasScheduled s
  end.

(** [seekToTime] (lines 844-868). *)
Definition seekToTime (now seekTime : Z) (s : St) : St :=
  let s := clearAllSources s in
  let s := set_currentPlaybackTime seekTime s in
  let s := set_streamStartTime (now - seekTime) s in
  let s := set_nextStartTime now s in
  let s := seekLoop (decodedAudioBuffers s) seekTime 0 false s in
  match playbackState s with Paused => set_playbackState Playing s | _ => s end.

(** [handleSeek] (lines 880-888): a click at ratio [seekTime / totalDuration]
    of the bar; a time outside [[0, totalDuration]] is no click. *)
Definition handleSeek (seekTime now : Z) (s : St) : option St :=
  if (match playbackState s with Stopped => true | _ => false end) || (totalDuration s =? 0)
  then Some s
  else if (0 <=? seekTime) && (seekTime <=? totalDuration s)
  then Some (seekToTime now seekTime s)
  else None.

(** [source.onended = () => { activeSources = activeSources.filter(...) }] *)
Definition sourceEnded (id : nat) (s : St) : St :=
  set_activeSources (filter (fun u => negb (Nat.eqb (src_id u) id)) (activeSources s)) s.

(** The events that drive the component. *)
Inductive Event :=
| ServerMessage (data : option (list Z))
| DecodeDone (k : nat) (now : Z)
| PlayPause (now : Z)
| ConnectSettled (ok : bool) (now : Z)
| ResetClick
| SessionError
| AnimationFrame (id : nat) (now : Z)
| SourceEnded (id : nat)
| SeekClick (seekTime now : Z)
| DecodeFailed (k : nat).

Definition step (e : Event) (s : St) : option St :=
  match e with
  | ServerMessage d => if session s then Some (handleServerMessage d s) else None
  | DecodeDone k now => decodeDone k now s
  | PlayPause now => Some (handlePlayPause now s)
  | ConnectSettled ok now =>
      match pendingConnects s with
      | O => None
      | S n => Some (connectToSession_end ok now (set_pendingConnects n s))
      end
  | ResetClick => Some (stopAudio s)
  | SessionError => if session s then Some (stopAudio s) else None
  | AnimationFrame id now =>
      if existsb (Nat.eqb id) (pendingFrames s)
      then Some (updateProgress now (set_pendingFrames (remove Nat.eq_dec id (pendingFrames s)) s))
      else None
  | SourceEnded id => Some (sourceEnded id s)
  | SeekClick t now => handleSeek t now s
  | DecodeFailed k => decodeRejected k s
  end.

Fixpoint exec (evs : list Event) (s : St) : option St :=
  match evs with
  | [] => Some s
  | e :: evs' => let* s' := step e s in exec evs' s'
  end.

(** Events that tear the session down: the reset button and the
    session's [onerror] handler, which both run [stopAudio]. *)
Definition teardown (e : Event) : bool :=
  match e with ResetClick | SessionError => true | _ => false end.

(** A click on the progress bar. *)
Definition isSeek (e : Event) : bool :=
  match e with SeekClick _ _ => true | _ => false end.

(** Decodes that all succeed, oldest first: every [DecodeDone] resolves the
    oldest pending decode, and no decode rejects. *)
Definition oldestFirst (e : Event) : bool :=
  match e with DecodeDone k _ => Nat.eqb k 0 | DecodeFailed _ => false | _ => true end.

(** A series of decode completions: buffer [fst p] resolves at device time
    [snd p], each callback running to its end before the next. *)
Definition decodeRun (evs : list (AudioBuffer * Z)) (s : St) : St :=
  fold_left (fun s p => decodeCallback (fst p) (snd p) s) evs s.

(** The start time the [.then] callback gives a buffer decoded at [now]
    (lines 505-520): the look-ahead seed or [nextStartTime] clamped to
    [now]. *)
Definition startOf (next now : Z) : Z :=
  if next =? 0 then now + bufferTime else Z.max next now.

Fixpoint sumDur (bufs : list AudioBuffer) : Z :=
  match bufs with [] => 0 | b :: r => duration b + sumDur r end.

(** What a scheduled unit plays: its buffer, start time and offset. *)
Definition unitView (u : Source) : AudioBuffer * Z * Z :=
  (src_buffer u, src_when u, src_offset u).

(** The units of [bufs] played back to back from [start], each from its
    beginning. *)
Fixpoint backToBack (start : Z) (bufs : list AudioBuffer) : list (AudioBuffer * Z * Z) :=
  match bufs with
  | [] => []
  | b :: r => (b, start, 0) :: backToBack (start + duration b) r
  end.

End Player.

(** ** [throttle] *)

Module Throttle.

(** One call of the wrapper returned by [throttle(func, delay)] at
    [now = Date.now()]: [func] runs when [now - lastCall >= delay], and
    [lastCall] is then set to [now].  Result: whether [func] ran, and the new
    [lastCall]. *)
Definition throttle_call (delay lastCall now : Z) : bool * Z :=
  if delay <=? now - lastCall then (true, now) else (false, lastCall).

(** A sequence of calls of one wrapper, [lastCall] starting at [0]. *)
Fixpoint throttle_run (delay lastCall : Z) (nows : list Z) : list bool :=
  match nows with
  | [] => []
  | now :: rest =>
      let (ran, lastCall') := throttle_call delay lastCall now in
      ran :: throttle_run delay lastCall' rest
  end.

(** The times at which [func] ran. *)
Fixpoint ranAt (delay lastCall : Z) (nows : list Z) : list Z :=
  match nows with
  | [] => []
  | now :: rest =>
      let (ran, lastCall') := throttle_call delay lastCall now in
      if ran then now :: ranAt delay lastCall' rest else ranAt delay lastCall' rest
  end.

End Throttle.

(** ** Prompts: colours, ids, edits and reordering *)

Module Prompts.

Definition COLORS : list string :=
  ["#9900ff"; "#5200ff"; "#ff25f6"; "#2af6de"; "#ffdd28"; "#3dffab";
   "#d8ff3e"; "#d9b2ff"]%string.

(** [Math.floor(Math.random() * n)], [r] being the value drawn by
    [Math.random()]. *)
Definition randomIndex (r : Q) (n : nat) : Z :=
  Qfloor (r * inject_Z (Z.of_nat n)).

(** Array indexing: [undefined] ([None]) outside the array. *)
Definition arrayGet {A} (l : list A) (i : Z) : option A :=
  if i <? 0 then None else nth_error l (Z.to_nat i).

(** [usedColors.includes(c)]; a colour [undefined] equals no string. *)
Definition includes (usedColors : list (option string)) (c : string) : bool :=
  existsb (fun u => match u with Some u => String.eqb u c | None => false end)
    usedColors.

Definition getUnusedRandomColor (usedColors : list (option string)) (r : Q)
  : option string :=
  let availableColors := filter (fun c => negb (includes usedColors c)) COLORS in
  if (List.length availableColors =? 0)%nat
  then arrayGet COLORS (randomIndex r (List.length COLORS))
  else arrayGet availableColors (randomIndex r (List.length availableColors)).

(** A prompt; its [color] is what [getUnusedRandomColor] returned. *)
Record Prompt := mkPrompt {
  promptId : string;
  text : string;
  weight : Q;
  color : option string
}.

Record PromptState := mkPromptState {
  prompts : list Prompt;
  nextPromptId : nat
}.

Definition promptsInitial : PromptState := mkPromptState [] 0.

(** [String(n)] of a non-negative integer: its decimal digits. *)
Definition natString (n : nat) : string :=
  NilZero.string_of_uint (Nat.to_uint n).

(** [addPrompt(text, weight)], [r] being the [Math.random()] draw of
    [getUnusedRandomColor]. *)
Definition addPrompt (text : string) (weight : Q) (r : Q) (st : PromptState)
  : PromptState :=
  let promptId := ("prompt-" ++ natString (nextPromptId st))%string in
  let usedColors := map color (prompts st) in
  let color := getUnusedRandomColor usedColors r in
  mkPromptState (prompts st ++ [mkPrompt promptId text weight color])
    (S (nextPromptId st)).

Definition handlePromptChanged (changedPrompt : Prompt) (st : PromptState)
  : PromptState :=
  mkPromptState
    (map (fun p => if String.eqb (promptId p) (promptId changedPrompt)
                   then changedPrompt else p) (prompts st))
    (nextPromptId st).

Definition handlePromptRemoved (id : string) (st : PromptState) : PromptState :=
  mkPromptState
    (filter (fun p => negb (String.eqb (promptId p) id)) (prompts st))
    (nextPromptId st).

(** The array [handleDrop] assigns to [this.prompts], from the [promptId]
    attributes of the container's children in their DOM order; [find]
    gives [undefined] ([None]) for an id no prompt carries. *)
Definition handleDrop_prompts (newOrderedIds : list string) (ps : list Prompt)
  : list (option Prompt) :=
  map (fun id => find (fun p => String.eqb (promptId p) id) ps) newOrderedIds.

Inductive PromptOp :=
| AddPrompt (text : string) (weight : Q) (r : Q)
| PromptChanged (p : Prompt)
| PromptRemoved (id : string).

Definition promptStep (op : PromptOp) (st : PromptState) : PromptState :=
  match op with
  | AddPrompt t w r => addPrompt t w r st
  | PromptChanged p => handlePromptChanged p st
  | PromptRemoved id => handlePromptRemoved id st
  end.

Definition promptsExec (ops : list PromptOp) (st : PromptState) : PromptState :=
  fold_left (fun st op => promptStep op st) ops st.

(** [Number(x) || d]: [0] and [NaN] ([None]) are falsy. *)
Definition numberOr (x : option Q) (d : Q) : Q :=
  match x with
  | Some q => if Qeq_bool q 0 then d else q
  | None => d
  end.

(** [PromptController._setWeightFromInput]: arguments [parseFloat(target.value)]
    ([None] for [NaN]), whether [target.value.trim()] is empty,
    [Number(target.min)], [Number(target.max)] and the current weight.
    Result: the new weight, and the number written back to [target.value]
    when the input is rewritten. *)
Definition setWeightFromInput (newWeight : option Q) (blank : bool)
  (minN maxN : option Q) (weight : Q) : Q * option Q :=
  match newWeight with
  | None => (if blank then 0%Q else weight, None)
  | Some newWeight =>
      let min := numberOr minN 0 in
      let max := numberOr maxN 2 in
      let clampedWeight := Qmax min (Qmin max newWeight) in
      (clampedWeight,
       if Qeq_bool clampedWeight newWeight then None else Some clampedWeight)
  end.

(** [WeightSlider.updateValueFromPosition]: the track's bounding box
    ([top], [trackHeight]) and the pointer's [clientY]. *)
Definition updateValueFromPosition (top trackHeight clientY : Q) : Q :=
  let relativeY := (clientY - top)%Q in
  let normalizedValue := (1 - Qmax 0 (Qmin trackHeight relativeY) / trackHeight)%Q in
  (normalizedValue * 2)%Q.

(** The invariant of [prompts]: the ids are pairwise distinct, and each is
    [prompt-k] for a [k] below [nextPromptId]. *)
Definition idsInv (st : PromptState) : Prop :=
  NoDup (map promptId (prompts st)) /\
  forall id, In id (map promptId (prompts st)) ->
    exists k, (k < nextPromptId st)%nat /\ id = ("prompt-" ++ natString k)%string.

End Prompts.

(** ** The settings panel *)

Module Settings.

(** The values a config field can hold; [JNum None] is [NaN]. *)
Inductive JsVal :=
| JUndefined
| JBool (b : bool)
| JNum (n : option Q)
| JStr (s : string).

(** A [Partial<LiveMusicGenerationConfig>] object: its own properties in
    insertion order, each key once. *)
Definition Config := list (string * JsVal).

(** [obj[key]]; [None] for a key the object does not have. *)
Fixpoint lookupProp (cfg : Config) (k : string) : option JsVal :=
  match cfg with
  | [] => None
  | (k', v) :: rest => if String.eqb k' k then Some v else lookupProp rest k
  end.

(** [{ ...cfg, [k]: v }]: an existing key keeps its place and takes the new
    value, a new key comes last. *)
Fixpoint setProp (cfg : Config) (k : string) (v : JsVal) : Config :=
  match cfg with
  | [] => [(k, v)]
  | (k', v') :: rest =>
      if String.eqb k' k then (k', v) :: rest else (k', v') :: setProp rest k v
  end.

(** [Math.min] and [Math.max] on numbers that may be [NaN]. *)
Definition jsMin (a b : option Q) : option Q :=
  match a, b with Some x, Some y => Some (Qmin x y) | _, _ => None end.
Definition jsMax (a b : option Q) : option Q :=
  match a, b with Some x, Some y => Some (Qmax x y) | _, _ => None end.

(** The [HTMLInputElement] of the event: [inputNumber], [inputMin] and
    [inputMax] are [Number(target.value)], [Number(target.min)] and
    [Number(target.max)] ([None] for [NaN]). *)
Record InputEl := mkInputEl {
  inputType : string;
  inputId : string;
  inputChecked : bool;
  inputValue : string;
  inputNumber : option Q;
  inputMin : option Q;
  inputMax : option Q
}.

(** [_setConfigFromInput] (lines 245-270): the new [this.config].  The
    write-back of the clamped value into [target.value] only changes what
    the input shows. *)
Definition setConfigFromInput (target : InputEl) (config : Config) : Config :=
  let key := inputId target in
  let value := if String.eqb (inputType target) "checkbox"
               then JBool (inputChecked target) else JStr (inputValue target) in
  let value :=
    if String.eqb (inputType target) "range" || String.eqb (inputType target) "number" then
      let min := inputMin target in
      let max := inputMax target in
      if String.eqb (inputValue target) "" then JUndefined
      else match inputNumber target with
           | None => JUndefined
           | Some numValue => JNum (jsMax min (jsMin max (Some numValue)))
           end
    else value in
  setProp config key value.

End Settings.

(** ** [formatDuration] *)

Module Format.

(** [String(z)] of an integer. *)
Definition zString (z : Z) : string := NilZero.string_of_int (Z.to_int z).

(** [s.padStart(2, '0')]. *)
Definition padStart2 (s : string) : string :=
  if (String.length s <? 2)%nat
  then String.append (string_of_list_ascii (repeat "0"%char (2 - String.length s))) s
  else s.

(** [x % y] on numbers: the remainder of the division truncated toward
    zero. *)
Definition jsRem (x y : Q) : Q :=
  let t := (x / y)%Q in
  let tr := if Qle_bool 0 t then Qfloor t else - Qfloor (- t) in
  (x - inject_Z tr * y)%Q.

Definition formatDuration (seconds : Q) : string :=
  (padStart2 (zString (Qfloor (seconds / 60))) ++ ":" ++
   padStart2 (zString (Qfloor (jsRem seconds 60))))%string.

(** The two decimal digits of [n], for [0 <= n < 100]. *)
Definition twoDigits (n : Z) : string :=
  String (ascii_of_nat (48 + Z.to_nat (n / 10)))
    (String (ascii_of_nat (48 + Z.to_nat (n mod 10))) EmptyString).

End Format.

(** ** [handleDownloadMp3] and the encoder worker's block loop *)

Module Mp3.

(** Reading a sample of an [Int16Array] from two bytes (little endian). *)
Definition int16_le (lo hi : Z) : Z :=
  let u := lo + 256 * hi in if u <? 32768 then u else u - 65536.

Fixpoint int16Samples (bytes : list Z) : list Z :=
  match bytes with
  | lo :: hi :: rest => int16_le lo hi :: int16Samples rest
  | _ => []
  end.

(** How [handleDownloadMp3] ends: it returns at once when no chunk was
    received; [new Int16Array(buffer)] throws a [RangeError] when the byte
    length is odd; otherwise the two channels are posted to the worker. *)
Inductive Mp3Start :=
| NoChunks
| RangeError
| PostToWorker (left right : list Z) (sampleRate : Z).

(** [new Int16Array(numSamples)] truncates [numSamples = pcm.length / 2] to
    an integer, and the loop's writes past that length are ignored: each
    channel receives [pcm.length / 2] (rounded down) samples. *)
Definition handleDownloadMp3 (receivedAudioChunks : list (list Z)) : Mp3Start :=
  match receivedAudioChunks with
  | [] => NoChunks
  | _ =>
      let concatenatedData := List.concat receivedAudioChunks in
      if negb (Nat.even (List.length concatenatedData)) then RangeError else
      let pcm := int16Samples concatenatedData in
      let numSamples := (List.length pcm / 2)%nat in
      let left := map (fun i => nth (i * 2) pcm 0) (seq 0 numSamples) in
      let right := map (fun i => nth (i * 2 + 1) pcm 0) (seq 0 numSamples) in
      PostToWorker left right 48000
  end.

Definition sampleBlockSize : nat := 1152.

(** [a.subarray(i, j)], [j] clamped to the length. *)
Definition subarray (a : list Z) (i j : nat) : list Z :=
  firstn (j - i) (skipn i a).

(** The [(leftChunk, rightChunk)] pairs the worker's loop passes to
    [encodeBuffer], in order, from index [i]. *)
Equations encodeBlocks (l r : list Z) (i : nat) : list (list Z * list Z)
  by wf (List.length l - i)%nat lt :=
encodeBlocks l r i with lt_dec i (List.length l) => {
  | left _ =>
      (subarray l i (i + sampleBlockSize), subarray r i (i + sampleBlockSize))
        :: encodeBlocks l r (i + sampleBlockSize);
  | right _ => [] }.
Next Obligation. unfold sampleBlockSize. lia. Qed.

End Mp3.

(** ** [OverlayScrollbar] *)

Module Scrollbar.

Record ScrollbarState := mkScrollbarState {
  hasOverflow : bool;
  thumbHeight : Q;
  thumbTop : Q
}.

(** [updateScrollbar], from the content element's [scrollTop],
    [scrollHeight] and [clientHeight]. *)
Definition updateScrollbar (scrollTop scrollHeight clientHeight : Q)
  (sb : ScrollbarState) : ScrollbarState :=
  let contentHeight := scrollHeight in
  let containerHeight := clientHeight in
  let hasOverflow := negb (Qle_bool contentHeight containerHeight) in
  if negb hasOverflow then mkScrollbarState false 0 (thumbTop sb)
  else mkScrollbarState true (containerHeight / contentHeight * containerHeight)
         (scrollTop / contentHeight * containerHeight).

(** The [scrollTop] that [handlePointerMove] assigns. *)
Definition handlePointerMove (startScrollTop dy : Q)
  (scrollHeight contentClientHeight containerClientHeight : Q)
  (sb : ScrollbarState) : Q :=
  let scrollableDist := (scrollHeight - contentClientHeight)%Q in
  let trackDist := (containerClientHeight - thumbHeight sb)%Q in
  (startScrollTop + dy / trackDist * scrollableDist)%Q.

End Scrollbar.

(** * Properties *)

(** ** WAV export *)

Module WavProofs.
Import Wav.

Lemma land255_mod (x : Z) : Z.land x 255 = x mod 256.
Proof. change 255 with (Z.ones 8). rewrite Z.land_ones by lia. reflexivity. Qed.

Lemma shiftr8_div (x : Z) : Z.shiftr x 8 = x / 256.
Proof. rewrite Z.shiftr_div_pow2 by lia. reflexivity. Qed.

Lemma le32_bytes (v : Z) :
  0 <= v < 2 ^ 32 ->
  le32 v = [Z.land v 255; Z.land (Z.shiftr v 8) 255; Z.land (Z.shiftr (Z.shiftr v 8) 8) 255;
            Z.land (Z.shiftr (Z.shiftr (Z.shiftr v 8) 8) 8) 255].
Proof.
  intros Hv. unfold le32. rewrite !shiftr8_div, !land255_mod, !Z.div_div by lia.
  do 3 f_equal. f_equal. symmetry. apply Z.mod_small. split.
  - apply Z.div_pos; lia.
  - apply Z.div_lt_upper_bound; lia.
Qed.

(** At the call of [handleDownloadWav] the header is the canonical one, as
    long as the RIFF size [36 + dataLength] fits its 4 bytes. *)
Lemma writeWavHeader_canonical (N : Z) :
  0 <= N -> 36 + N < 2 ^ 32 ->
  writeWavHeader N audioContext_sampleRate 2 16 =
  Some (canonicalWavHeader N audioContext_sampleRate 2 16).
Proof.
  intros H0 H1. unfold canonicalWavHeader.
  rewrite (le32_bytes (36 + N)), (le32_bytes N) by lia.
  reflexivity.
Qed.

Lemma fold_chunk_length (cs : list (list Z)) (a : Z) :
  fold_left (fun acc chunk => acc + chunk_length chunk) cs a =
  a + Z.of_nat (List.length (List.concat cs)).
Proof.
  revert a; induction cs as [|c cs IH]; intros a; simpl.
  - lia.
  - rewrite IH, length_app, Nat2Z.inj_add. unfold chunk_length. lia.
Qed.

(** C7: for received chunks of total length [N > 0] (with [36 + N] within
    the 4-byte RIFF size field), the exported file is exactly [44 + N]
    bytes: the canonical RIFF/WAVE header ("RIFF", size [36 + N]
    little-endian at offset 4, PCM code 1 at offset 20, 2 channels, 48000
    Hz, byte rate [48000 * 2 * 2], block align 4, 16 bits, "data", and [N]
    little-endian at offset 40) followed by the chunks' bytes in arrival
    order. *)
Theorem wav_export_layout (chunks : list (list Z)) (N : Z) :
  N = Z.of_nat (List.length (List.concat chunks)) ->
  0 < N -> 36 + N < 2 ^ 32 ->
  exists w, handleDownloadWav chunks = Some w /\
    Z.of_nat (List.length w) = 44 + N /\
    firstn 44 w = canonicalWavHeader N audioContext_sampleRate 2 16 /\
    skipn 44 w = List.concat chunks /\
    firstn 4 w = char_codes "RIFF"%string /\
    firstn 4 (skipn 4 w) = le32 (36 + N) /\
    firstn 2 (skipn 20 w) = le16 1 /\
    firstn 4 (skipn 28 w) = le32 (audioContext_sampleRate * 2 * 2) /\
    firstn 4 (skipn 40 w) = le32 N.
Proof.
  intros HN Hpos Hbig.
  assert (Hne : chunks <> []) by (intros ->; subst N; simpl in Hpos; lia).
  exists (canonicalWavHeader N audioContext_sampleRate 2 16 ++ List.concat chunks).
  split.
  - unfold handleDownloadWav. destruct chunks as [|c cs]; [congruence|].
    rewrite fold_chunk_length, Z.add_0_l, <- HN.
    rewrite writeWavHeader_canonical by lia. reflexivity.
  - rewrite length_app, Nat2Z.inj_add.
    repeat split; try reflexivity. cbn [List.length canonicalWavHeader le32 le16 char_codes app]. lia.
Qed.

Lemma wav_export_layout_witness :
  exists w, handleDownloadWav [[1; 2]; [3]] = Some w /\ Z.of_nat (List.length w) = 47 /\
    firstn 4 (skipn 40 w) = le32 3.
Proof.
  assert (H1 : 3 = Z.of_nat (List.length (List.concat [[1; 2]; [3]]))) by reflexivity.
  assert (H2 : 0 < 3) by lia.
  assert (H3 : 36 + 3 < 2 ^ 32) by (vm_compute; reflexivity).
  destruct (wav_export_layout [[1; 2]; [3]] 3 H1 H2 H3)
    as (w & W1 & W2 & _ & _ & _ & _ & _ & _ & W9).
  exists w. split; [exact W1|]. split; [exact W2 | exact W9].
Defined.

End WavProofs.

(** ** Scheduling, transport and timeline *)

Module PlayerProofs.
Import Player.

Ltac st_simpl :=
  unfold set_playbackState, set_totalDuration, set_currentPlaybackTime,
    set_activeSources, set_decodedAudioBuffers, set_isSeeking,
    set_streamStartTime, set_session, set_receivedAudioChunks,
    set_nextStartTime, set_gainTarget, set_gainRampEnd,
    set_animationFrameId, set_pendingFrames, set_pendingDecodes,
    set_pendingConnects, set_nextObjectId in *;
  cbn -[Z.add Z.max Z.min Z.ltb Z.eqb Z.sub bufferTime] in *.


Lemma decodeCallback_scheduling (b : AudioBuffer) (now : Z) (s : St) :
  playingOrLoading (playbackState s) = true -> 0 <= now ->
  let s' := decodeCallback b now s in
  activeSources s' = activeSources s ++ [mkSource (nextObjectId s) b (startOf (nextStartTime s) now) 0] /\
  nextStartTime s' = startOf (nextStartTime s) now + duration b /\
  playbackState s' = Playing /\
  streamStartTime s' = (if nextStartTime s =? 0 then now + bufferTime else streamStartTime s) /\
  totalDuration s' = totalDuration s + duration b /\
  decodedAudioBuffers s' = decodedAudioBuffers s ++ [b].
Proof.
  intros Hst Hnow. unfold decodeCallback, scheduleDecoded, startOf, updateProgress, requestAnimationFrame.
  destruct s as [st td cp act bufs seeking ss sess chunks next gt ge afid pf pd pc nid].
  st_simpl.
  destruct st; cbn in Hst; try discriminate; cbn;
  (destruct (next =? 0) eqn:Hn;
   [ destruct seeking; st_simpl;
     (replace (now + bufferTime <? now) with false by (symmetry; apply Z.ltb_ge; unfold bufferTime; lia));
     cbn; repeat split; rewrite ?Z.add_assoc; reflexivity
   | destruct (next <? now) eqn:Hl; st_simpl; rewrite Hl; cbn;
     [ apply Z.ltb_lt in Hl; rewrite Z.max_r by lia | apply Z.ltb_ge in Hl; rewrite Z.max_l by lia ];
     repeat split ]).
Qed.

Lemma startOf_pos (next now : Z) : 0 <= next -> 0 <= now -> 0 < startOf next now.
Proof.
  intros H1 H2. unfold startOf, bufferTime. destruct (next =? 0) eqn:E.
  - lia.
  - apply Z.eqb_neq in E. lia.
Qed.

Lemma decodeRun_stream (evs : list (AudioBuffer * Z)) (s : St) :
  playingOrLoading (playbackState s) = true -> 0 < nextStartTime s ->
  Forall (fun p => 0 <= snd p /\ 0 <= duration (fst p)) evs ->
  streamStartTime (decodeRun evs s) = streamStartTime s.
Proof.
  revert s; induction evs as [|[b now] evs IH]; intros s Hst Hn Hf; [reflexivity|].
  inversion Hf as [|? ? [Hnow Hd] Hf']; subst; cbn [fst snd] in *.
  unfold decodeRun; cbn [fold_left fst snd]. fold (decodeRun evs (decodeCallback b now s)).
  destruct (decodeCallback_scheduling b now s Hst Hnow) as (_ & Hnext & Hst' & Hss & _).
  rewrite IH; [| rewrite Hst'; reflexivity | | exact Hf'].
  - rewrite Hss. replace (nextStartTime s =? 0) with false by (symmetry; apply Z.eqb_neq; lia). reflexivity.
  - rewrite Hnext. pose proof (startOf_pos (nextStartTime s) now ltac:(lia) Hnow). lia.
Qed.

(** C1: for a series of decode completions in playing or loading, each
    buffer becomes one unit with offset 0, appended to [activeSources]; the
    first starts at [now + bufferTime] when [nextStartTime] is 0 (and
    [streamStartTime] is then set to that time) and otherwise at
    [max nextStartTime now]; each later unit starts where the previous one
    ends, clamped up to the device time of its own completion. *)
Theorem gapless_lookahead_scheduling (evs : list (AudioBuffer * Z)) (s : St) :
  playingOrLoading (playbackState s) = true ->
  0 <= nextStartTime s ->
  Forall (fun p => 0 <= snd p /\ 0 <= duration (fst p)) evs ->
  exists units,
    activeSources (decodeRun evs s) = activeSources s ++ units /\
    map src_buffer units = map fst evs /\
    Forall (fun u => src_offset u = 0) units /\
    (forall b0 now0 evs', evs = (b0, now0) :: evs' ->
       exists u0 units', units = u0 :: units' /\
         src_when u0 = (if nextStartTime s =? 0 then now0 + bufferTime
                        else Z.max (nextStartTime s) now0) /\
         (nextStartTime s = 0 -> streamStartTime (decodeRun evs s) = now0 + bufferTime)) /\
    (forall i u u' p, nth_error units i = Some u -> nth_error units (S i) = Some u' ->
       nth_error evs (S i) = Some p ->
       src_when u' = Z.max (src_when u + duration (src_buffer u)) (snd p)).
Proof.
  revert s; induction evs as [|[b now] evs IH]; intros s Hst Hn Hf.
  - exists []. rewrite app_nil_r. repeat split; try constructor.
    + intros ? ? ? E; discriminate.
    + intros [|i] ? ? ? E; discriminate.
  - inversion Hf as [|? ? [Hnow Hd] Hf']; subst; cbn [fst snd] in *.
    unfold decodeRun; cbn [fold_left fst snd]. fold (decodeRun evs (decodeCallback b now s)).
    destruct (decodeCallback_scheduling b now s Hst Hnow) as (Hact & Hnext & Hst' & Hss & _).
    set (s1 := decodeCallback b now s) in *.
    pose proof (startOf_pos (nextStartTime s) now Hn Hnow) as Hpos.
    assert (Hst1 : playingOrLoading (playbackState s1) = true) by (rewrite Hst'; reflexivity).
    assert (Hn1 : 0 < nextStartTime s1) by lia.
    destruct (IH s1 Hst1 ltac:(lia) Hf') as (units & Hu & Hmap & Hoff & Hfirst & Hcons).
    exists (mkSource (nextObjectId s) b (startOf (nextStartTime s) now) 0 :: units).
    repeat split.
    + rewrite Hu, Hact, <- app_assoc. reflexivity.
    + cbn. rewrite Hmap. reflexivity.
    + constructor; [reflexivity | exact Hoff].
    + intros b0 now0 evs' E. injection E as <- <- <-.
      eexists _, _. split; [reflexivity|]. split; [reflexivity|].
      intros H0. rewrite (decodeRun_stream evs s1 Hst1 Hn1 Hf'), Hss, H0. reflexivity.
    + intros [|i] u u' p H1 H2 H3; cbn in H1, H2, H3.
      * injection H1 as <-. destruct evs as [|[b1 now1] evs1]; [discriminate|].
        injection H3 as <-. cbn.
        destruct (Hfirst b1 now1 evs1 eq_refl) as (u0 & units' & -> & Hw & _).
        injection H2 as <-. rewrite Hw, Hnext.
        replace (startOf (nextStartTime s) now + duration b =? 0) with false
          by (symmetry; apply Z.eqb_neq; lia). reflexivity.
      * exact (Hcons i u u' p H1 H2 H3).
Qed.

Lemma scheduleBuffer_fields (b : AudioBuffer) (st off : Z) (s : St) :
  activeSources (scheduleBuffer b st off s) =
    activeSources s ++ [mkSource (nextObjectId s) b st off] /\
  nextStartTime (scheduleBuffer b st off s) = st + (duration b - off) /\
  decodedAudioBuffers (scheduleBuffer b st off s) = decodedAudioBuffers s /\
  playbackState (scheduleBuffer b st off s) = playbackState s.
Proof. destruct s; repeat split. Qed.

Lemma seekLoop_scheduled (post : list AudioBuffer) (t acc : Z) (s : St) :
  (exists units, activeSources (seekLoop post t acc true s) = activeSources s ++ units /\
     map unitView units = backToBack (nextStartTime s) post) /\
  nextStartTime (seekLoop post t acc true s) = nextStartTime s + sumDur post.
Proof.
  revert acc s; induction post as [|b post IH]; intros acc s; cbn.
  - split; [exists []; rewrite app_nil_r; split; reflexivity | lia].
  - destruct (scheduleBuffer_fields b (nextStartTime s) 0 s) as (Ha & Hn & _).
    destruct (IH (acc + duration b) (scheduleBuffer b (nextStartTime s) 0 s))
      as [(units & H1 & H1') H2].
    rewrite H2, Hn. split; [|lia].
    exists (mkSource (nextObjectId s) b (nextStartTime s) 0 :: units).
    rewrite H1, Ha, <- app_assoc. split; [reflexivity|].
    cbn. rewrite H1', Hn. do 2 f_equal. lia.
Qed.

Lemma seekLoop_skip (pre rest : list AudioBuffer) (t acc : Z) (s : St) :
  Forall (fun b => 0 <= duration b) pre -> acc + sumDur pre < t ->
  seekLoop (pre ++ rest) t acc false s = seekLoop rest t (acc + sumDur pre) false s.
Proof.
  revert acc; induction pre as [|b pre IH]; intros acc Hf Hlt; cbn.
  - rewrite Z.add_0_r. reflexivity.
  - inversion Hf as [|? ? Hb Hf']; subst.
    assert (Hpre : 0 <= sumDur pre).
    { clear -Hf'. induction pre; cbn; [lia|]. inversion Hf'; subst. specialize (IHpre H2). lia. }
    cbn in Hlt. replace (t <=? acc + duration b) with false by (symmetry; apply Z.leb_gt; lia).
    cbn. rewrite IH by (assumption || lia). f_equal. lia.
Qed.

Lemma seekToTime_loop (now t : Z) (s : St) :
  let s1 := set_nextStartTime now (set_streamStartTime (now - t)
              (set_currentPlaybackTime t (clearAllSources s))) in
  activeSources (seekToTime now t s) = activeSources (seekLoop (decodedAudioBuffers s) t 0 false s1) /\
  nextStartTime (seekToTime now t s) = nextStartTime (seekLoop (decodedAudioBuffers s) t 0 false s1) /\
  activeSources s1 = [] /\ nextStartTime s1 = now.
Proof.
  unfold seekToTime. destruct s; cbn.
  match goal with |- context [seekLoop ?l ?a ?b ?c ?d] => destruct (seekLoop l a b c d) as [[] ? ? ? ? ? ? ? ? ? ? ? ? ? ? ? ?] end;
  repeat split.
Qed.

Lemma sumDur_nonneg (bufs : list AudioBuffer) :
  Forall (fun b => 0 <= duration b) bufs -> 0 <= sumDur bufs.
Proof. induction 1; cbn; lia. Qed.

(** C4 (amended): seeking to the cumulative end [t] of a buffer [b] of
    positive duration (earlier buffers of non-negative duration) schedules
    [b] itself at [now] with offset [duration b], a zero-length play, then
    the following buffers back to back from [now] with offset 0;
    [nextStartTime] ends at [now] plus their total duration. *)
Theorem seek_to_buffer_boundary (pre post : list AudioBuffer) (b : AudioBuffer) (now t : Z) (s : St) :
  decodedAudioBuffers s = pre ++ b :: post ->
  Forall (fun x => 0 <= duration x) pre -> 0 < duration b ->
  t = sumDur pre + duration b ->
  map unitView (activeSources (seekToTime now t s)) = (b, now, duration b) :: backToBack now post /\
  nextStartTime (seekToTime now t s) = now + sumDur post.
Proof.
  intros Hbufs Hpre Hb Ht.
  destruct (seekToTime_loop now t s) as (Ha & Hn & Ha1 & Hn1).
  rewrite Ha, Hn, Hbufs. clear Ha Hn.
  set (s1 := set_nextStartTime now _) in *.
  rewrite seekLoop_skip by (assumption || lia). rewrite Z.add_0_l. cbn.
  replace (t <=? sumDur pre + duration b) with true by (symmetry; apply Z.leb_le; lia).
  cbn.
  destruct (scheduleBuffer_fields b (nextStartTime s1) (t - sumDur pre) s1) as (Hsa & Hsn & _).
  destruct (seekLoop_scheduled post t (sumDur pre + duration b)
              (scheduleBuffer b (nextStartTime s1) (t - sumDur pre) s1))
    as [(units & Hu & Hu') Hn2].
  rewrite Hu, Hn2, Hsa, Hsn, Ha1, Hn1. rewrite Hsn, Hn1 in Hu'.
  split.
  - cbn. rewrite Hu'. unfold unitView. cbn. do 3 f_equal; lia.
  - lia.
Qed.

Lemma sumDur_zero (bufs : list AudioBuffer) :
  Forall (fun b => 0 <= duration b) bufs -> sumDur bufs <= 0 ->
  Forall (fun b => duration b = 0) bufs.
Proof.
  induction 1 as [|b r Hb Hr IH]; cbn; intros Hs; constructor.
  - pose proof (sumDur_nonneg r Hr). lia.
  - apply IH. pose proof (sumDur_nonneg r Hr). lia.
Qed.

Lemma backToBack_zero (st : Z) (r : list AudioBuffer) (units : list Source) :
  Forall (fun b => duration b = 0) r -> map unitView units = backToBack st r ->
  Forall (fun u => src_when u = st /\ src_offset u = duration (src_buffer u)) units.
Proof.
  intros Hr. revert units; induction Hr as [|b r Hb Hr IH]; intros units Hm;
    destruct units as [|u units]; cbn in Hm; try discriminate; constructor.
  - unfold unitView in Hm. injection Hm as E1 E2 E3 _. rewrite E1, E2, E3, Hb. split; reflexivity.
  - apply IH. injection Hm as _ _ _ Hm. rewrite Hb, Z.add_0_r in Hm. exact Hm.
Qed.

Lemma seekLoop_at_end (bufs : list AudioBuffer) (t acc : Z) (s : St) :
  bufs <> [] -> Forall (fun b => 0 <= duration b) bufs -> t = acc + sumDur bufs ->
  exists units,
    activeSources (seekLoop bufs t acc false s) = activeSources s ++ units /\
    units <> [] /\
    Forall (fun u => src_when u = nextStartTime s /\ src_offset u = duration (src_buffer u)) units /\
    nextStartTime (seekLoop bufs t acc false s) = nextStartTime s.
Proof.
  revert acc; induction bufs as [|b r IH]; intros acc Hne Hf Ht; [congruence|].
  inversion Hf as [|? ? Hb Hr]; subst. cbn.
  pose proof (sumDur_nonneg r Hr) as Hr0.
  destruct (acc + (duration b + sumDur r) <=? acc + duration b) eqn:E; cbn.
  - apply Z.leb_le in E.
    pose proof (sumDur_zero r Hr ltac:(lia)) as Hz.
    destruct (scheduleBuffer_fields b (nextStartTime s) (acc + (duration b + sumDur r) - acc) s)
      as (Hsa & Hsn & _).
    destruct (seekLoop_scheduled r (acc + (duration b + sumDur r)) (acc + duration b)
                (scheduleBuffer b (nextStartTime s) (acc + (duration b + sumDur r) - acc) s))
      as [(units & Hu & Hu') Hn2].
    rewrite Hsn in Hu'.
    exists (mkSource (nextObjectId s) b (nextStartTime s) (acc + (duration b + sumDur r) - acc) :: units).
    rewrite Hu, Hsa, <- app_assoc, Hn2, Hsn. repeat split.
    + discriminate.
    + constructor; [cbn; split; [reflexivity | lia]|].
      apply (backToBack_zero _ r); [exact Hz|]. rewrite Hu'. f_equal. lia.
    + lia.
  - apply Z.leb_gt in E.
    assert (r <> []) by (intros ->; cbn in E; lia).
    cbn [sumDur] in IH. apply (IH (acc + duration b)); [assumption | assumption | lia].
Qed.

(** C5 (amended): when [totalDuration] is the total of a non-empty
    Timeline (durations non-negative), seeking to [totalDuration] does
    schedule units: at least one, each starting at [now] with offset equal
    to its buffer's duration (a zero-length play), and [nextStartTime] is
    left at [now]. *)
Theorem seek_to_total_duration (now : Z) (s : St) :
  decodedAudioBuffers s <> [] ->
  Forall (fun b => 0 <= duration b) (decodedAudioBuffers s) ->
  totalDuration s = sumDur (decodedAudioBuffers s) ->
  activeSources (seekToTime now (totalDuration s) s) <> [] /\
  Forall (fun u => src_when u = now /\ src_offset u = duration (src_buffer u))
         (activeSources (seekToTime now (totalDuration s) s)) /\
  nextStartTime (seekToTime now (totalDuration s) s) = now.
Proof.
  intros Hne Hf Htot.
  destruct (seekToTime_loop now (totalDuration s) s) as (Ha & Hn & Ha1 & Hn1).
  rewrite Ha, Hn. clear Ha Hn.
  assert (Ht : totalDuration s = 0 + sumDur (decodedAudioBuffers s)) by lia.
  destruct (seekLoop_at_end (decodedAudioBuffers s) (totalDuration s) 0
              (set_nextStartTime now (set_streamStartTime (now - totalDuration s)
                 (set_currentPlaybackTime (totalDuration s) (clearAllSources s)))) Hne Hf Ht)
    as (units & Hu & Hne' & Hall & Hn2).
  rewrite Hu, Ha1, Hn2, Hn1. cbn. rewrite Hn1 in Hall. auto.
Qed.


Ltac st_cases :=
  repeat (st_simpl;
          match goal with
          | |- context [if ?b then _ else _] => destruct b eqn:?
          | |- context [match ?p with Stopped => _ | Playing => _ | Loading => _ | Paused => _ end] => destruct p
          end); st_simpl.

Lemma updateProgress_fields (now : Z) (s : St) :
  let s' := updateProgress now s in
  playbackState s' = playbackState s /\ totalDuration s' = totalDuration s /\
  activeSources s' = activeSources s /\ decodedAudioBuffers s' = decodedAudioBuffers s /\
  streamStartTime s' = streamStartTime s /\ session s' = session s /\
  receivedAudioChunks s' = receivedAudioChunks s /\ nextStartTime s' = nextStartTime s /\
  pendingDecodes s' = pendingDecodes s /\ isSeeking s' = isSeeking s /\
  (nextObjectId s <= nextObjectId s')%nat /\
  currentPlaybackTime s' =
    (if isSeeking s || negb (playingOrLoading (playbackState s)) then currentPlaybackTime s
     else Z.max 0 (Z.min (now - streamStartTime s) (totalDuration s))).
Proof.
  destruct s as [st td cp act bufs seeking ss sess chunks next gt ge afid pf pd pc nid].
  unfold updateProgress, requestAnimationFrame.
  destruct seeking, st; st_simpl; repeat split; lia.
Qed.

Lemma scheduleDecoded_fields (b : AudioBuffer) (now : Z) (s : St) :
  let s' := scheduleDecoded b now s in
  decodedAudioBuffers s' = decodedAudioBuffers s /\
  receivedAudioChunks s' = receivedAudioChunks s /\
  pendingDecodes s' = pendingDecodes s /\ session s' = session s /\
  totalDuration s' = totalDuration s + duration b /\
  (S (nextObjectId s) <= nextObjectId s')%nat /\
  exists u, activeSources s' = activeSources s ++ [u] /\ src_buffer u = b /\
            src_id u = nextObjectId s.
Proof.
  destruct s as [st td cp act bufs seeking ss sess chunks next gt ge afid pf pd pc nid].
  unfold scheduleDecoded, updateProgress, requestAnimationFrame.
  st_cases; (split; [reflexivity|]); repeat (split; [first [reflexivity | lia]|]);
    eexists; repeat split.
Qed.

Lemma cancelCurrentFrame_fields (s : St) :
  cancelCurrentFrame s = set_pendingFrames (match animationFrameId s with
    | Some id => remove Nat.eq_dec id (pendingFrames s) | None => pendingFrames s end) s.
Proof.
  destruct s as [st td cp act bufs seeking ss sess chunks next gt ge afid pf pd pc nid].
  unfold cancelCurrentFrame; destruct afid; reflexivity.
Qed.

Lemma pauseAudio_fields (now : Z) (s : St) :
  let s' := pauseAudio now s in
  totalDuration s' = totalDuration s /\ currentPlaybackTime s' = currentPlaybackTime s /\
  decodedAudioBuffers s' = decodedAudioBuffers s /\
  receivedAudioChunks s' = receivedAudioChunks s /\ pendingDecodes s' = pendingDecodes s /\
  nextStartTime s' = nextStartTime s /\ streamStartTime s' = streamStartTime s /\
  nextObjectId s' = nextObjectId s /\ session s' = session s /\
  activeSources s' = (if session s then [] else activeSources s) /\
  playbackState s' = (if session s then Paused else playbackState s).
Proof.
  unfold pauseAudio, clearAllSources; rewrite cancelCurrentFrame_fields.
  destruct s as [st td cp act bufs seeking ss sess chunks next gt ge afid pf pd pc nid].
  destruct sess; st_simpl; repeat split.
Qed.

Lemma loadAudio_fields (now : Z) (s : St) :
  let s' := loadAudio now s in
  totalDuration s' = totalDuration s /\ decodedAudioBuffers s' = decodedAudioBuffers s /\
  receivedAudioChunks s' = receivedAudioChunks s /\ pendingDecodes s' = pendingDecodes s /\
  nextStartTime s' = nextStartTime s /\ streamStartTime s' = streamStartTime s /\
  activeSources s' = activeSources s /\ session s' = session s /\
  (nextObjectId s <= nextObjectId s')%nat /\
  currentPlaybackTime s' =
    (if session s then currentPlaybackTime (updateProgress now s) else currentPlaybackTime s) /\
  playbackState s' =
    (if session s then match playbackState s with Paused => Playing | _ => Loading end
     else playbackState s).
Proof.
  unfold loadAudio. destruct (session s) eqn:Hs; [|cbn; repeat split; auto; lia].
  cbn [negb].
  pose proof (updateProgress_fields now s) as H; cbv zeta in H.
  destruct (updateProgress now s) as [st td cp act bufs seeking ss sess chunks next gt ge afid pf pd pc nid].
  cbn in H. destruct H as (H1 & H2 & H3 & H4 & H5 & H6 & H7 & H8 & H9 & H10 & H11 & H12).
  subst. st_simpl. repeat split; auto; lia.
Qed.

Lemma stopAudio_fields (s : St) :
  let s' := stopAudio s in
  totalDuration s' = 0 /\ currentPlaybackTime s' = 0 /\ decodedAudioBuffers s' = [] /\
  receivedAudioChunks s' = [] /\ pendingDecodes s' = pendingDecodes s /\
  activeSources s' = [] /\ playbackState s' = Stopped /\ session s' = false /\
  nextStartTime s' = 0 /\ nextObjectId s' = nextObjectId s.
Proof.
  unfold stopAudio, clearAllSources; rewrite cancelCurrentFrame_fields.
  destruct s; st_simpl; repeat split.
Qed.

Lemma connectToSession_begin_fields (s : St) :
  connectToSession_begin s =
    set_pendingConnects (S (pendingConnects s)) (set_playbackState Loading s).
Proof. reflexivity. Qed.

Lemma handlePlayPause_cases (now : Z) (s : St) :
  (playingOrLoading (playbackState s) = true /\ handlePlayPause now s = pauseAudio now s) \/
  (pausedOrStopped (playbackState s) = true /\ session s = true /\
     handlePlayPause now s = loadAudio now s) \/
  (pausedOrStopped (playbackState s) = true /\ session s = false /\
     handlePlayPause now s = connectToSession_begin s).
Proof.
  unfold handlePlayPause. destruct (playbackState s); cbn; auto;
    destruct (session s) eqn:E; auto.
Qed.

Lemma handleServerMessage_fields (d : option (list Z)) (s : St) :
  let s' := handleServerMessage d s in
  (exists sfx, receivedAudioChunks s' = receivedAudioChunks s ++ sfx /\
               pendingDecodes s' = pendingDecodes s ++ sfx) /\
  totalDuration s' = totalDuration s /\ currentPlaybackTime s' = currentPlaybackTime s /\
  decodedAudioBuffers s' = decodedAudioBuffers s /\ activeSources s' = activeSources s /\
  playbackState s' = playbackState s /\ nextObjectId s' = nextObjectId s.
Proof.
  destruct d as [d|]; cbn.
  - destruct s; st_simpl. repeat split. exists [d]. split; reflexivity.
  - repeat split. exists []. rewrite !app_nil_r. split; reflexivity.
Qed.

Lemma sourceEnded_fields (id : nat) (s : St) :
  let s' := sourceEnded id s in
  totalDuration s' = totalDuration s /\ currentPlaybackTime s' = currentPlaybackTime s /\
  decodedAudioBuffers s' = decodedAudioBuffers s /\
  receivedAudioChunks s' = receivedAudioChunks s /\ pendingDecodes s' = pendingDecodes s /\
  playbackState s' = playbackState s /\ nextObjectId s' = nextObjectId s /\
  (forall u, In u (activeSources s') -> In u (activeSources s)).
Proof.
  destruct s; st_simpl. repeat split. intros u Hu. apply filter_In in Hu. apply Hu.
Qed.

Lemma decodeDone_fields (k : nat) (now : Z) (s s' : St) :
  decodeDone k now s = Some s' ->
  exists data, nth_error (pendingDecodes s) k = Some data /\
    let b := decodeAudioData (nextObjectId s) data 48000 2 in
    decodedAudioBuffers s' = decodedAudioBuffers s ++ [b] /\
    receivedAudioChunks s' = receivedAudioChunks s /\
    pendingDecodes s' = remove_nth k (pendingDecodes s) /\
    (S (nextObjectId s) <= nextObjectId s')%nat /\
    if pausedOrStopped (playbackState s) then
      activeSources s' = activeSources s /\ totalDuration s' = totalDuration s /\
      nextStartTime s' = nextStartTime s /\ currentPlaybackTime s' = currentPlaybackTime s /\
      playbackState s' = playbackState s
    else
      totalDuration s' = totalDuration s + duration b /\
      exists u, activeSources s' = activeSources s ++ [u] /\ src_buffer u = b.
Proof.
  unfold decodeDone. destruct (nth_error (pendingDecodes s) k) as [data|] eqn:E; [|discriminate].
  cbn. intros H; injection H as <-. exists data. split; [reflexivity|].
  unfold decodeCallback.
  set (b := decodeAudioData (nextObjectId s) data 48000 2).
  destruct s as [st td cp act bufs seeking ss sess chunks next gt ge afid pf pd pc nid].
  st_simpl. destruct st; cbn [pausedOrStopped].
  2, 3: match goal with |- context [scheduleDecoded ?b ?n ?x] =>
          pose proof (scheduleDecoded_fields b n x) as (H1 & H2 & H3 & _ & H5 & H6 & u & H7 & H8 & _);
          set (s1 := scheduleDecoded b n x) in *;
          cbn [nextObjectId decodedAudioBuffers receivedAudioChunks pendingDecodes
               totalDuration activeSources] in H1, H2, H3, H5, H6, H7 end;
        split; [exact H1|]; split; [exact H2|]; split; [exact H3|]; split; [lia|];
        split; [exact H5|]; exists u; auto.
  all: cbn [decodedAudioBuffers receivedAudioChunks pendingDecodes nextObjectId activeSources
            totalDuration nextStartTime currentPlaybackTime playbackState];
       repeat split; lia.
Qed.

Lemma seekLoop_frame (bufs : list AudioBuffer) (t acc : Z) (h : bool) (s : St) :
  let s' := seekLoop bufs t acc h s in
  decodedAudioBuffers s' = decodedAudioBuffers s /\
  receivedAudioChunks s' = receivedAudioChunks s /\ pendingDecodes s' = pendingDecodes s /\
  totalDuration s' = totalDuration s /\ playbackState s' = playbackState s /\
  currentPlaybackTime s' = currentPlaybackTime s /\ session s' = session s /\
  (nextObjectId s <= nextObjectId s')%nat.
Proof.
  revert acc h s; induction bufs as [|b bufs IH]; intros acc h s; cbn [seekLoop].
  - repeat split; lia.
  - destruct (negb h && (t <=? acc + duration b)); [|destruct h].
    1, 2: match goal with |- context [seekLoop ?l ?tt ?a ?h' ?x] =>
            destruct (IH a h' x) as (H1 & H2 & H3 & H4 & H5 & H6 & H7 & H8) end;
          rewrite H1, H2, H3, H4, H5, H6, H7; destruct s; cbn in H8 |- *;
          repeat split; lia.
    + apply IH.
Qed.

Lemma seekToTime_frame (now t : Z) (s : St) :
  let s' := seekToTime now t s in
  decodedAudioBuffers s' = decodedAudioBuffers s /\
  receivedAudioChunks s' = receivedAudioChunks s /\ pendingDecodes s' = pendingDecodes s /\
  totalDuration s' = totalDuration s /\ currentPlaybackTime s' = t /\
  session s' = session s /\ (nextObjectId s <= nextObjectId s')%nat /\
  playbackState s' = match playbackState s with Paused => Playing | p => p end.
Proof.
  unfold seekToTime, clearAllSources.
  match goal with |- context [seekLoop ?l ?a ?b ?c ?d] =>
    pose proof (seekLoop_frame l a b c d) as Hf; cbv zeta in Hf;
    revert Hf; generalize (seekLoop l a b c d) end.
  intros s1 (H1 & H2 & H3 & H4 & H5 & H6 & H7 & H8).
  destruct s; cbn in *. destruct s1; cbn in *; subst.
  destruct playbackState0; cbn; repeat split; lia.
Qed.

Lemma connectToSession_end_fields (ok : bool) (now : Z) (s : St) :
  let s' := connectToSession_end ok now s in
  totalDuration s' = totalDuration s /\ decodedAudioBuffers s' = decodedAudioBuffers s /\
  receivedAudioChunks s' = receivedAudioChunks s /\ pendingDecodes s' = pendingDecodes s /\
  nextStartTime s' = nextStartTime s /\ streamStartTime s' = streamStartTime s /\
  activeSources s' = activeSources s /\ (nextObjectId s <= nextObjectId s')%nat /\
  (pausedOrStopped (playbackState s) = true -> currentPlaybackTime s' = currentPlaybackTime s).
Proof.
  unfold connectToSession_end. destruct ok.
  - pose proof (loadAudio_fields now (set_session true s)) as
      (H1 & H2 & H3 & H4 & H5 & H6 & H7 & _ & H9 & H10 & _).
    pose proof (updateProgress_fields now (set_session true s)) as (_ & _ & _ & _ & _ & _ & _ & _ & _ & _ & _ & H12).
    set (s' := loadAudio now (set_session true s)) in *.
    destruct s; cbn in *. rewrite H10, H12.
    repeat split; auto; try lia.
    intros Hp. destruct playbackState0; cbn in Hp |- *; try discriminate;
      destruct isSeeking0; reflexivity.
  - destruct s; cbn; repeat split; auto.
Qed.

Lemma set_pendingConnects_fields (n : nat) (s : St) :
  let s' := set_pendingConnects n s in
  playbackState s' = playbackState s /\ totalDuration s' = totalDuration s /\
  currentPlaybackTime s' = currentPlaybackTime s /\ activeSources s' = activeSources s /\
  decodedAudioBuffers s' = decodedAudioBuffers s /\
  receivedAudioChunks s' = receivedAudioChunks s /\ pendingDecodes s' = pendingDecodes s /\
  nextStartTime s' = nextStartTime s /\ nextObjectId s' = nextObjectId s.
Proof. destruct s; repeat split. Qed.

Lemma set_pendingFrames_fields (f : list nat) (s : St) :
  let s' := set_pendingFrames f s in
  playbackState s' = playbackState s /\ totalDuration s' = totalDuration s /\
  currentPlaybackTime s' = currentPlaybackTime s /\ activeSources s' = activeSources s /\
  decodedAudioBuffers s' = decodedAudioBuffers s /\
  receivedAudioChunks s' = receivedAudioChunks s /\ pendingDecodes s' = pendingDecodes s /\
  nextStartTime s' = nextStartTime s /\ nextObjectId s' = nextObjectId s /\
  isSeeking s' = isSeeking s /\ streamStartTime s' = streamStartTime s.
Proof. destruct s; repeat split. Qed.

Lemma handleSeek_cases (t now : Z) (s s' : St) :
  handleSeek t now s = Some s' -> s' = s \/ s' = seekToTime now t s.
Proof.
  unfold handleSeek. destruct (_ || _); [intros [=]; auto|].
  destruct (_ && _); intros [=]; auto.
Qed.

Lemma decodeRejected_fields (k : nat) (s s' : St) :
  decodeRejected k s = Some s' ->
  exists data, nth_error (pendingDecodes s) k = Some data /\
    s' = set_pendingDecodes (remove_nth k (pendingDecodes s)) s.
Proof.
  unfold decodeRejected. destruct (nth_error (pendingDecodes s) k) as [data|]; [|discriminate].
  intros [=]. eauto.
Qed.

(** Shape of a step: which handler produced the next state. *)
Lemma step_inv (e : Event) (s s' : St) :
  step e s = Some s' ->
  match e with
  | ServerMessage d => s' = handleServerMessage d s
  | DecodeDone k now => decodeDone k now s = Some s'
  | PlayPause now => s' = handlePlayPause now s
  | ConnectSettled ok now =>
      exists n, s' = connectToSession_end ok now (set_pendingConnects n s)
  | ResetClick | SessionError => s' = stopAudio s
  | AnimationFrame id now =>
      s' = updateProgress now (set_pendingFrames (remove Nat.eq_dec id (pendingFrames s)) s)
  | SourceEnded id => s' = sourceEnded id s
  | SeekClick t now => s' = s \/ s' = seekToTime now t s
  | DecodeFailed k => decodeRejected k s = Some s'
  end.
Proof.
  destruct e; cbn [step]; intros H.
  - destruct (session s); [injection H as <-; reflexivity | discriminate].
  - exact H.
  - injection H as <-; reflexivity.
  - destruct (pendingConnects s) as [|n]; [discriminate|]. injection H as <-. eauto.
  - injection H as <-; reflexivity.
  - destruct (session s); [injection H as <-; reflexivity | discriminate].
  - destruct (existsb _ _); [injection H as <-; reflexivity | discriminate].
  - injection H as <-; reflexivity.
  - exact (handleSeek_cases _ _ _ _ H).
  - exact H.
Qed.

Lemma step_chunks_grow (e : Event) (s s' : St) :
  teardown e = false -> step e s = Some s' ->
  exists sfx, receivedAudioChunks s' = receivedAudioChunks s ++ sfx.
Proof.
  intros Ht H. apply step_inv in H.
  assert (Hsame : receivedAudioChunks s' = receivedAudioChunks s ->
                  exists sfx, receivedAudioChunks s' = receivedAudioChunks s ++ sfx)
    by (intros ->; exists []; symmetry; apply app_nil_r).
  destruct e; cbn in Ht; try discriminate.
  - subst. destruct (handleServerMessage_fields data s) as ((sfx & H1 & _) & _). eauto.
  - apply Hsame. destruct (decodeDone_fields _ _ _ _ H) as (data & _ & _ & H1 & _). exact H1.
  - apply Hsame. subst. destruct (handlePlayPause_cases now s) as [(_ & ->)|[(_ & _ & ->)|(_ & _ & ->)]].
    + apply pauseAudio_fields.
    + apply loadAudio_fields.
    + destruct s; reflexivity.
  - apply Hsame. destruct H as (n & ->).
    destruct (connectToSession_end_fields ok now (set_pendingConnects n s)) as (_ & _ & H1 & _).
    rewrite H1. apply set_pendingConnects_fields.
  - apply Hsame. subst. destruct (updateProgress_fields now (set_pendingFrames (remove Nat.eq_dec id (pendingFrames s)) s))
      as (_ & _ & _ & _ & _ & _ & H1 & _).
    rewrite H1. apply set_pendingFrames_fields.
  - apply Hsame. subst. apply sourceEnded_fields.
  - apply Hsame. destruct H as [-> | ->]; [reflexivity | apply seekToTime_frame].
  - apply Hsame. destruct (decodeRejected_fields _ _ _ H) as (_ & _ & ->). destruct s; reflexivity.
Qed.

Lemma pausedOrStopped_not_playing (p : PlaybackState) :
  pausedOrStopped p = true -> playingOrLoading p = false.
Proof. destruct p; cbn; congruence. Qed.

Lemma sumDur_app (l1 l2 : list AudioBuffer) : sumDur (l1 ++ l2) = sumDur l1 + sumDur l2.
Proof. induction l1; cbn; lia. Qed.

Lemma decodeAudioData_duration_nonneg (id : nat) (data : list Z) :
  0 <= duration (decodeAudioData id data 48000 2).
Proof. cbn. apply Z.div_pos; [apply Z.div_pos|]; lia. Qed.

(** Events other than an audio message, a decode completion or rejection
    and a teardown leave the ChunkStore, the Timeline, the pending decodes and
    [totalDuration] as they are. *)
Lemma step_store_frame (e : Event) (s s' : St) :
  match e with
  | ServerMessage _ | DecodeDone _ _ | DecodeFailed _ | ResetClick | SessionError => false
  | _ => true
  end = true ->
  step e s = Some s' ->
  decodedAudioBuffers s' = decodedAudioBuffers s /\
  receivedAudioChunks s' = receivedAudioChunks s /\
  pendingDecodes s' = pendingDecodes s /\ totalDuration s' = totalDuration s.
Proof.
  intros He H. apply step_inv in H.
  destruct e; try discriminate.
  - subst. destruct (handlePlayPause_cases now s) as [(_ & ->)|[(_ & _ & ->)|(_ & _ & ->)]].
    + pose proof (pauseAudio_fields now s) as (H1 & _ & H3 & H4 & H5 & _). auto.
    + pose proof (loadAudio_fields now s) as (H1 & H2 & H3 & H4 & _). auto.
    + destruct s; repeat split.
  - destruct H as (n & ->).
    pose proof (connectToSession_end_fields ok now (set_pendingConnects n s)) as (H1 & H2 & H3 & H4 & _).
    pose proof (set_pendingConnects_fields n s) as (_ & G1 & _ & _ & G2 & G3 & G4 & _).
    rewrite H1, H2, H3, H4, G1, G2, G3, G4. auto.
  - subst. set (s0 := set_pendingFrames _ s).
    pose proof (updateProgress_fields now s0) as (_ & H1 & _ & H2 & _ & _ & H3 & _ & H4 & _).
    pose proof (set_pendingFrames_fields (remove Nat.eq_dec id (pendingFrames s)) s)
      as (_ & G1 & _ & _ & G2 & G3 & G4 & _).
    fold s0 in G1, G2, G3, G4. rewrite H1, H2, H3, H4, G1, G2, G3, G4. auto.
  - subst. pose proof (sourceEnded_fields id s) as (H1 & _ & H2 & H3 & H4 & _). auto.
  - destruct H as [-> | ->]; [auto|].
    pose proof (seekToTime_frame now seekTime s) as (H1 & H2 & H3 & H4 & _). auto.
Qed.

Lemma step_arrival_order (e : Event) (s s' : St) :
  oldestFirst e = true -> teardown e = false -> step e s = Some s' ->
  map buf_data (decodedAudioBuffers s) ++ pendingDecodes s = receivedAudioChunks s ->
  map buf_data (decodedAudioBuffers s') ++ pendingDecodes s' = receivedAudioChunks s'.
Proof.
  intros Ho Ht H Hinv.
  destruct e as [d|k now| | | | | | | |];
    try (apply step_store_frame in H; [|reflexivity];
         destruct H as (H1 & H2 & H3 & _); rewrite H1, H2, H3; exact Hinv);
    try (cbn in Ht; discriminate); try (cbn in Ho; discriminate).
  - apply step_inv in H; subst.
    destruct (handleServerMessage_fields d s) as ((sfx & H1 & H2) & _ & _ & H3 & _).
    rewrite H1, H2, H3, app_assoc, Hinv. reflexivity.
  - cbn in Ho. apply Nat.eqb_eq in Ho; subst k.
    destruct (decodeDone_fields _ _ _ _ H) as (data & Hd & H1 & H2 & H3 & _).
    rewrite H1, H2, H3, <- Hinv, map_app, <- app_assoc.
    destruct (pendingDecodes s) as [|d0 rest]; [discriminate|].
    injection Hd as ->. reflexivity.
Qed.

Lemma exec_arrival_order (evs : list Event) (s s' : St) :
  Forall (fun e => oldestFirst e = true /\ teardown e = false) evs ->
  map buf_data (decodedAudioBuffers s) ++ pendingDecodes s = receivedAudioChunks s ->
  exec evs s = Some s' ->
  map buf_data (decodedAudioBuffers s') ++ pendingDecodes s' = receivedAudioChunks s'.
Proof.
  revert s; induction evs as [|e evs IH]; intros s Hf Hinv H; cbn in H.
  - injection H as <-; exact Hinv.
  - inversion Hf as [|? ? [Ho Ht] Hf']; subst.
    destruct (step e s) as [s1|] eqn:E; [|discriminate].
    exact (IH s1 Hf' (step_arrival_order e s s1 Ho Ht E Hinv) H).
Qed.

Lemma step_total_bounded (e : Event) (s s' : St) :
  step e s = Some s' ->
  0 <= totalDuration s <= sumDur (decodedAudioBuffers s) ->
  0 <= totalDuration s' <= sumDur (decodedAudioBuffers s') /\
  (teardown e = false -> totalDuration s <= totalDuration s').
Proof.
  intros H Hinv.
  destruct e as [d|k now| | | | | | | |];
    try (apply step_store_frame in H; [|reflexivity];
         destruct H as (H1 & _ & _ & H4); rewrite H1, H4; split; [exact Hinv | lia]).
  - apply step_inv in H; subst.
    destruct (handleServerMessage_fields d s) as (_ & H1 & _ & H2 & _).
    rewrite H1, H2. split; [exact Hinv | lia].
  - destruct (decodeDone_fields _ _ _ _ H) as (data & _ & H1 & _ & _ & _ & Hc).
    pose proof (decodeAudioData_duration_nonneg (nextObjectId s) data).
    rewrite H1, sumDur_app. cbn [sumDur].
    destruct (pausedOrStopped (playbackState s)).
    + destruct Hc as (_ & H2 & _). rewrite H2. split; lia.
    + destruct Hc as (H2 & _). rewrite H2. split; lia.
  - apply step_inv in H; subst.
    pose proof (stopAudio_fields s) as (H1 & _ & H2 & _). rewrite H1, H2. cbn.
    split; [lia | discriminate].
  - apply step_inv in H; subst.
    pose proof (stopAudio_fields s) as (H1 & _ & H2 & _). rewrite H1, H2. cbn.
    split; [lia | discriminate].
  - apply step_inv in H. destruct (decodeRejected_fields _ _ _ H) as (_ & _ & ->).
    destruct s; cbn. split; [exact Hinv | lia].
Qed.

Lemma exec_total_bounded (evs : list Event) (s s' : St) :
  0 <= totalDuration s <= sumDur (decodedAudioBuffers s) ->
  exec evs s = Some s' ->
  0 <= totalDuration s' <= sumDur (decodedAudioBuffers s').
Proof.
  revert s; induction evs as [|e evs IH]; intros s Hinv H; cbn in H.
  - injection H as <-; exact Hinv.
  - destruct (step e s) as [s1|] eqn:E; [|discriminate].
    exact (IH s1 (proj1 (step_total_bounded e s s1 E Hinv)) H).
Qed.

Lemma step_cursor_frozen (e : Event) (s s' : St) :
  pausedOrStopped (playbackState s) = true -> isSeek e = false -> teardown e = false ->
  step e s = Some s' -> currentPlaybackTime s' = currentPlaybackTime s.
Proof.
  intros Hp Hs Ht H. pose proof (pausedOrStopped_not_playing _ Hp) as Hnp.
  destruct e; cbn in Hs, Ht; try discriminate.
  - apply step_inv in H; subst. apply handleServerMessage_fields.
  - destruct (decodeDone_fields _ _ _ _ H) as (data & _ & _ & _ & _ & _ & Hc).
    rewrite Hp in Hc. apply Hc.
  - apply step_inv in H; subst.
    destruct (handlePlayPause_cases now s) as [(Hc & _)|[(_ & Hss & ->)|(_ & _ & ->)]].
    + congruence.
    + pose proof (loadAudio_fields now s) as (_ & _ & _ & _ & _ & _ & _ & _ & _ & H1 & _).
      pose proof (updateProgress_fields now s) as (_ & _ & _ & _ & _ & _ & _ & _ & _ & _ & _ & H2).
      rewrite H1, Hss, H2, Hnp, orb_true_r. reflexivity.
    + destruct s; reflexivity.
  - apply step_inv in H. destruct H as (n & ->).
    pose proof (connectToSession_end_fields ok now (set_pendingConnects n s)) as (_ & _ & _ & _ & _ & _ & _ & _ & H1).
    pose proof (set_pendingConnects_fields n s) as (G1 & _ & G2 & _).
    rewrite H1, G2; [reflexivity|]. rewrite G1. exact Hp.
  - apply step_inv in H; subst. set (s0 := set_pendingFrames _ s).
    pose proof (updateProgress_fields now s0) as (_ & _ & _ & _ & _ & _ & _ & _ & _ & _ & _ & H1).
    pose proof (set_pendingFrames_fields (remove Nat.eq_dec id (pendingFrames s)) s)
      as (G1 & _ & G2 & _).
    fold s0 in G1, G2. rewrite H1, G1, G2, Hnp, orb_true_r. reflexivity.
  - apply step_inv in H; subst. apply sourceEnded_fields.
  - apply step_inv in H. destruct (decodeRejected_fields _ _ _ H) as (_ & _ & ->).
    destruct s; reflexivity.
Qed.

(** Outside a seek, a step adds no unit that plays a buffer older than the
    step: every unit it keeps was there before, and a new one plays a
    buffer allocated at or after the step. *)
Lemma step_units_fresh (e : Event) (s s' : St) :
  isSeek e = false -> step e s = Some s' ->
  (nextObjectId s <= nextObjectId s')%nat /\
  forall u, In u (activeSources s') ->
    In u (activeSources s) \/ (nextObjectId s <= buf_id (src_buffer u))%nat.
Proof.
  intros Hs H. destruct e; cbn in Hs; try discriminate; apply step_inv in H.
  - subst. destruct (handleServerMessage_fields data s) as (_ & _ & _ & _ & H1 & _ & H2).
    rewrite H1, H2. auto.
  - destruct (decodeDone_fields _ _ _ _ H) as (data & _ & _ & _ & _ & Hn & Hc).
    split; [lia|]. destruct (pausedOrStopped (playbackState s)).
    + destruct Hc as (H1 & _). rewrite H1. auto.
    + destruct Hc as (_ & u0 & H1 & H2). rewrite H1. intros u Hu.
      apply in_app_or in Hu. destruct Hu as [Hu | [<- | []]]; [auto|].
      right. rewrite H2. cbn. lia.
  - subst. destruct (handlePlayPause_cases now s) as [(_ & ->)|[(_ & _ & ->)|(_ & _ & ->)]].
    + pose proof (pauseAudio_fields now s) as (_ & _ & _ & _ & _ & _ & _ & H1 & _ & H2 & _).
      rewrite H1, H2. split; [lia|]. destruct (session s); [intros _ []|auto].
    + pose proof (loadAudio_fields now s) as (_ & _ & _ & _ & _ & _ & H1 & _ & H2 & _).
      rewrite H1. auto.
    + destruct s; cbn. auto.
  - destruct H as (n & ->).
    pose proof (connectToSession_end_fields ok now (set_pendingConnects n s)) as (_ & _ & _ & _ & _ & _ & H1 & H2 & _).
    pose proof (set_pendingConnects_fields n s) as (_ & _ & _ & G1 & _ & _ & _ & _ & G2).
    rewrite H1, G1. rewrite G2 in H2. auto.
  - subst. pose proof (stopAudio_fields s) as (_ & _ & _ & _ & _ & H1 & _ & _ & _ & H2).
    rewrite H1, H2. split; [lia | intros _ []].
  - subst. pose proof (stopAudio_fields s) as (_ & _ & _ & _ & _ & H1 & _ & _ & _ & H2).
    rewrite H1, H2. split; [lia | intros _ []].
  - subst. set (s0 := set_pendingFrames _ s).
    pose proof (updateProgress_fields now s0) as (_ & _ & H1 & _ & _ & _ & _ & _ & _ & _ & H2 & _).
    pose proof (set_pendingFrames_fields (remove Nat.eq_dec id (pendingFrames s)) s)
      as (_ & _ & _ & G1 & _ & _ & _ & _ & G2 & _).
    fold s0 in G1, G2. rewrite H1, G1. rewrite G2 in H2. auto.
  - subst. pose proof (sourceEnded_fields id s) as (_ & _ & _ & _ & _ & _ & H1 & H2).
    rewrite H1. split; [lia|]. intros u Hu. auto.
  - destruct (decodeRejected_fields _ _ _ H) as (_ & _ & ->). destruct s; cbn. auto.
Qed.

Lemma exec_buffer_unscheduled (bid : nat) (evs : list Event) (s s' : St) :
  Forall (fun e => isSeek e = false) evs ->
  (bid < nextObjectId s)%nat ->
  Forall (fun u => buf_id (src_buffer u) <> bid) (activeSources s) ->
  exec evs s = Some s' ->
  Forall (fun u => buf_id (src_buffer u) <> bid) (activeSources s').
Proof.
  revert s; induction evs as [|e evs IH]; intros s Hf Hlt Hu H; cbn in H.
  - injection H as <-; exact Hu.
  - inversion Hf as [|? ? He Hf']; subst.
    destruct (step e s) as [s1|] eqn:E; [|discriminate].
    destruct (step_units_fresh e s s1 He E) as (Hn & Hnew).
    apply (IH s1 Hf'); [lia| |exact H].
    apply Forall_forall. intros u Hin.
    destruct (Hnew u Hin) as [Hold | Hge].
    + exact (proj1 (Forall_forall _ _) Hu u Hold).
    + lia.
Qed.


(** A run without seeks adds only units that play buffers allocated during
    the run. *)
Lemma exec_units_fresh (evs : list Event) (s s' : St) :
  Forall (fun e => isSeek e = false) evs -> exec evs s = Some s' ->
  (nextObjectId s <= nextObjectId s')%nat /\
  forall u, In u (activeSources s') ->
    In u (activeSources s) \/ (nextObjectId s <= buf_id (src_buffer u))%nat.
Proof.
  revert s; induction evs as [|e evs IH]; intros s Hf H; cbn in H.
  - injection H as <-. auto.
  - inversion Hf as [|? ? He Hf']; subst.
    destruct (step e s) as [s1|] eqn:E; [|discriminate].
    destruct (step_units_fresh e s s1 He E) as (Hn1 & Hu1).
    destruct (IH s1 Hf' H) as (Hn2 & Hu2).
    split; [lia|]. intros u Hu.
    destruct (Hu2 u Hu) as [Hin | Hge]; [|right; lia].
    destruct (Hu1 u Hin) as [Hin' | Hge']; [left; exact Hin' | right; exact Hge'].
Qed.

Lemma remove_nth_app {A} (a b : list A) (k : nat) :
  remove_nth (List.length a + k) (a ++ b) = a ++ remove_nth k b.
Proof.
  induction a as [|x a IH]; cbn; [reflexivity|]. rewrite IH. reflexivity.
Qed.

(** C2 counterexample: two chunks arrive and the second one's decode
    completes first; the Timeline ends up as [chunk 2; chunk 1] while the
    ChunkStore is [chunk 1; chunk 2]. *)
Lemma decode_order_counterexample :
  exists s, exec [PlayPause 0; ConnectSettled true 0;
                  ServerMessage (Some (List.repeat 1 400)); ServerMessage (Some (List.repeat 2 400));
                  DecodeDone 1 10; DecodeDone 0 20] initial = Some s /\
    receivedAudioChunks s = [List.repeat 1 400; List.repeat 2 400] /\
    map buf_data (decodedAudioBuffers s) = [List.repeat 2 400; List.repeat 1 400].
Proof. eexists; split; [cbv; reflexivity|]. split; vm_compute; reflexivity. Qed.

(** C3 counterexample: a chunk whose decode completes after a pause is in
    the Timeline (100 frames) but not in [totalDuration] (0). *)
Lemma paused_decode_total_counterexample :
  exists s, exec [PlayPause 0; ConnectSettled true 0;
                  ServerMessage (Some (List.repeat 1 400)); PlayPause 5; DecodeDone 0 10] initial = Some s /\
    playbackState s = Paused /\ totalDuration s = 0 /\ sumDur (decodedAudioBuffers s) = 100.
Proof. eexists; split; [cbv; reflexivity|]. repeat split; vm_compute; reflexivity. Qed.

(** C4 counterexample: Timeline of two 100-frame buffers, seek to 100, the
    end of the first: the first buffer is scheduled with offset 100, its
    full duration, then the second from offset 0. *)
Lemma boundary_seek_counterexample :
  exists s, exec [PlayPause 0; ConnectSettled true 0;
                  ServerMessage (Some (List.repeat 1 400)); ServerMessage (Some (List.repeat 2 400));
                  DecodeDone 0 10; DecodeDone 0 20; SeekClick 100 30] initial = Some s /\
    map duration (decodedAudioBuffers s) = [100; 100] /\
    map (fun u => (src_when u, src_offset u, duration (src_buffer u))) (activeSources s) =
      [(30, 100, 100); (30, 0, 100)].
Proof. eexists; split; [cbv; reflexivity|]. repeat split; vm_compute; reflexivity. Qed.

(** C5 counterexample: Timeline of two 100-frame buffers, seek to 200, the
    total duration: one unit is scheduled, the last buffer at offset 100,
    its full duration. *)
Lemma seek_to_end_counterexample :
  exists s, exec [PlayPause 0; ConnectSettled true 0;
                  ServerMessage (Some (List.repeat 1 400)); ServerMessage (Some (List.repeat 2 400));
                  DecodeDone 0 10; DecodeDone 0 20; SeekClick 200 30] initial = Some s /\
    map duration (decodedAudioBuffers s) = [100; 100] /\
    map (fun u => (src_when u, src_offset u, duration (src_buffer u))) (activeSources s) =
      [(30, 100, 100)].
Proof. eexists; split; [cbv; reflexivity|]. repeat split; vm_compute; reflexivity. Qed.

(** C6 counterexample: 200 frames decoded and the cursor at 50 when the
    pause comes; the resume leaves the state playing with no scheduled
    unit, although 150 decoded frames lie after the cursor. *)
Lemma resume_counterexample :
  exists s s', exec [PlayPause 0; ConnectSettled true 0;
                  ServerMessage (Some (List.repeat 1 400)); ServerMessage (Some (List.repeat 2 400));
                  DecodeDone 0 10; DecodeDone 0 20; AnimationFrame 1 48060; AnimationFrame 4 48060;
                  PlayPause 48070] initial = Some s /\
    playbackState s = Paused /\ currentPlaybackTime s = 50 /\ totalDuration s = 200 /\
    step (PlayPause 48080) s = Some s' /\
    playbackState s' = Playing /\ activeSources s' = [] /\
    receivedAudioChunks s' = receivedAudioChunks s /\ pendingDecodes s' = [].
Proof. do 2 eexists; split; [cbv; reflexivity|]. repeat split; try reflexivity; vm_compute; reflexivity. Qed.

(** C8 counterexample: after a reset and a failed connect, a play request
    leaves the state loading; when the connection settles at device time
    48060 the cursor update moves the cursor from 0 to 50 while the state
    stays loading. *)
Lemma loading_cursor_counterexample :
  exists s s', exec [PlayPause 0; ConnectSettled true 0; ServerMessage (Some (List.repeat 1 400));
                     ResetClick; PlayPause 5; DecodeDone 0 10; ConnectSettled false 20;
                     PlayPause 30] initial = Some s /\
    playbackState s = Loading /\ currentPlaybackTime s = 0 /\
    step (ConnectSettled true 48060) s = Some s' /\
    playbackState s' = Loading /\ currentPlaybackTime s' = 50.
Proof. do 2 eexists; split; [cbv; reflexivity|]. repeat split; try reflexivity; vm_compute; reflexivity. Qed.

(** C2 (amended): from the initial state, while every decode succeeds and
    completes oldest first and no teardown intervenes, the Timeline's chunk
    data followed by the pending decodes is exactly the ChunkStore
    ([receivedAudioChunks]).  In such a state, with [n] buffers in the
    Timeline, a decode of the [k]-th pending chunk (the ChunkStore's chunk
    [n + k]) that completes appends its buffer at the end of the Timeline,
    not at the chunk's arrival position: when that chunk is not the oldest
    pending one, the Timeline is no longer a prefix of the ChunkStore.  A
    decode that fails appends nothing: its chunk stays in the ChunkStore
    and is missing from the Timeline. *)
Theorem timeline_in_completion_order (evs : list Event) (s : St) :
  Forall (fun e => oldestFirst e = true /\ teardown e = false) evs ->
  exec evs initial = Some s ->
  let n := List.length (decodedAudioBuffers s) in
  map buf_data (decodedAudioBuffers s) ++ pendingDecodes s = receivedAudioChunks s /\
  (forall k now s1, step (DecodeDone k now) s = Some s1 ->
     exists data, nth_error (receivedAudioChunks s) (n + k) = Some data /\
       decodedAudioBuffers s1 =
         decodedAudioBuffers s ++ [decodeAudioData (nextObjectId s) data 48000 2] /\
       receivedAudioChunks s1 = receivedAudioChunks s /\
       (nth_error (receivedAudioChunks s) n <> Some data ->
          forall rest, map buf_data (decodedAudioBuffers s1) ++ rest <> receivedAudioChunks s1)) /\
  (forall k s1, step (DecodeFailed k) s = Some s1 ->
     decodedAudioBuffers s1 = decodedAudioBuffers s /\
     receivedAudioChunks s1 = receivedAudioChunks s /\
     map buf_data (decodedAudioBuffers s1) ++ pendingDecodes s1 =
       remove_nth (n + k) (receivedAudioChunks s1)).
Proof.
  intros Hf He n.
  pose proof (exec_arrival_order evs initial s Hf eq_refl He) as Hinv.
  assert (Hn : List.length (map buf_data (decodedAudioBuffers s)) = n) by apply length_map.
  split; [exact Hinv|]. split.
  - intros k now s1 Hd. cbn [step] in Hd.
    destruct (decodeDone_fields _ _ _ _ Hd) as (data & Hk & H1 & H2 & _).
    exists data.
    assert (Hnk : nth_error (receivedAudioChunks s) (n + k) = Some data).
    { rewrite <- Hinv, nth_error_app2 by lia. rewrite Hn. replace (n + k - n)%nat with k by lia.
      exact Hk. }
    split; [exact Hnk|]. split; [exact H1|]. split; [exact H2|].
    intros Hne rest Heq. apply Hne.
    rewrite H1, H2, <- Hinv, map_app, <- app_assoc in Heq. apply app_inv_head in Heq.
    rewrite <- Hinv, nth_error_app2 by lia. rewrite Hn, Nat.sub_diag, <- Heq. reflexivity.
  - intros k s1 Hd. cbn [step] in Hd.
    destruct (decodeRejected_fields _ _ _ Hd) as (_ & _ & ->).
    assert (Hset : forall l, decodedAudioBuffers (set_pendingDecodes l s) = decodedAudioBuffers s /\
              receivedAudioChunks (set_pendingDecodes l s) = receivedAudioChunks s /\
              pendingDecodes (set_pendingDecodes l s) = l) by (destruct s; auto).
    destruct (Hset (remove_nth k (pendingDecodes s))) as (G1 & G2 & G3).
    rewrite G1, G2, G3. split; [reflexivity|]. split; [reflexivity|].
    rewrite <- Hinv, <- Hn, remove_nth_app. reflexivity.
Qed.

Lemma timeline_in_completion_order_witness :
  let evs := [PlayPause 0; ConnectSettled true 0;
              ServerMessage (Some (List.repeat 1 400)); ServerMessage (Some (List.repeat 2 400))] in
  match exec evs initial with
  | Some s =>
      match step (DecodeDone 1 10) s, step (DecodeFailed 0) s with
      | Some s1, Some s2 =>
          receivedAudioChunks s1 = [List.repeat 1 400; List.repeat 2 400] /\
          map buf_data (decodedAudioBuffers s1) = [List.repeat 2 400] /\
          (forall rest, map buf_data (decodedAudioBuffers s1) ++ rest <> receivedAudioChunks s1) /\
          decodedAudioBuffers s2 = [] /\
          receivedAudioChunks s2 = [List.repeat 1 400; List.repeat 2 400] /\
          pendingDecodes s2 = [List.repeat 2 400]
      | _, _ => False
      end
  | None => False
  end.
Proof.
  intros evs.
  destruct (exec evs initial) as [s|] eqn:E; [|vm_compute in E; discriminate].
  assert (Hf : Forall (fun e => oldestFirst e = true /\ teardown e = false) evs)
    by (repeat constructor).
  destruct (timeline_in_completion_order evs s Hf E) as (Hinv & Hdone & Hfail).
  vm_compute in E. injection E as <-.
  destruct (step (DecodeDone 1 10) _) as [s1|] eqn:E1; [|vm_compute in E1; discriminate].
  destruct (step (DecodeFailed 0) _) as [s2|] eqn:E2; [|vm_compute in E2; discriminate].
  destruct (Hdone 1%nat 10 s1 E1) as (data & Hk & H1 & H2 & H3).
  vm_compute in Hk. injection Hk as <-.
  destruct (Hfail 0%nat s2 E2) as (F1 & F2 & F3).
  split; [rewrite H2; reflexivity|]. split; [rewrite H1; reflexivity|].
  split; [apply H3; vm_compute; discriminate|].
  split; [exact F1|]. split; [exact F2|].
  rewrite F1, F2 in F3. vm_compute in F3. exact F3.
Defined.

(** C3 (amended): in every reachable state
    [0 <= totalDuration <= sum of the Timeline's durations]; equality fails
    once a decode completes while paused or stopped, which adds its buffer
    to the Timeline but not to [totalDuration].  No step other than a
    teardown (reset or session error, both [stopAudio]) decreases
    [totalDuration], and a teardown sets it to 0. *)
Theorem total_duration_bounded_monotone (evs : list Event) (s : St) (e : Event) (s' : St) :
  exec evs initial = Some s -> step e s = Some s' ->
  0 <= totalDuration s <= sumDur (decodedAudioBuffers s) /\
  (teardown e = false -> totalDuration s <= totalDuration s') /\
  (teardown e = true -> totalDuration s' = 0).
Proof.
  intros He Hs.
  assert (H0 : 0 <= totalDuration initial <= sumDur (decodedAudioBuffers initial)) by (cbn; lia).
  pose proof (exec_total_bounded evs initial s H0 He) as Hinv.
  split; [exact Hinv|]. split; [exact (proj2 (step_total_bounded e s s' Hs Hinv))|].
  intros Ht. destruct e; cbn in Ht; try discriminate; apply step_inv in Hs; subst; apply stopAudio_fields.
Qed.

Lemma total_duration_bounded_monotone_witness :
  let evs := [PlayPause 0; ConnectSettled true 0; ServerMessage (Some [1; 2; 3; 4]); PlayPause 5;
              DecodeDone 0 10] in
  match exec evs initial with
  | Some s =>
      match step ResetClick s with
      | Some s' =>
          (0 <= totalDuration s <= sumDur (decodedAudioBuffers s) /\
           (teardown ResetClick = false -> totalDuration s <= totalDuration s') /\
           (teardown ResetClick = true -> totalDuration s' = 0))
      | None => False
      end
  | None => False
  end.
Proof.
  intros evs.
  destruct (exec evs initial) as [s|] eqn:E1; [|vm_compute in E1; discriminate].
  destruct (step ResetClick s) as [s'|] eqn:E2; [|discriminate].
  exact (total_duration_bounded_monotone evs s ResetClick s' E1 E2).
Defined.

(** C6 (amended): a resume request in paused (with a session) sets the
    state to playing and ramps the gain to 1, but re-derives nothing from
    the cursor: [activeSources], [nextStartTime], [streamStartTime], the
    Timeline, [totalDuration] and the cursor stay as they were.  Playback
    resumes only with chunks decoded afterwards: as long as no seek
    happens, every unit scheduled after the resume plays a buffer that was
    not in the Timeline at the resume (given, as in every reachable state,
    that the Timeline's buffers were allocated before it). *)
Theorem resume_from_paused_schedules_nothing (now : Z) (s : St) (evs : list Event) (s2 : St) :
  playbackState s = Paused -> session s = true ->
  Forall (fun b => (buf_id b < nextObjectId s)%nat) (decodedAudioBuffers s) ->
  Forall (fun e => isSeek e = false) evs ->
  exec evs (handlePlayPause now s) = Some s2 ->
  let s1 := handlePlayPause now s in
  (playbackState s1 = Playing /\ gainTarget s1 = 1 /\
   activeSources s1 = activeSources s /\ nextStartTime s1 = nextStartTime s /\
   streamStartTime s1 = streamStartTime s /\ decodedAudioBuffers s1 = decodedAudioBuffers s /\
   totalDuration s1 = totalDuration s /\ currentPlaybackTime s1 = currentPlaybackTime s) /\
  forall u, In u (activeSources s2) ->
    In u (activeSources s) \/ ~ In (src_buffer u) (decodedAudioBuffers s).
Proof.
  intros Hp Hs Hids Hf He s1. split.
  - subst s1.
    destruct s as [st td cp act bufs seeking ss sess chunks next gt ge afid pf pd pc nid].
    cbn in Hp, Hs; subst.
    unfold handlePlayPause, loadAudio, updateProgress, requestAnimationFrame.
    destruct seeking; st_simpl; repeat split.
  - assert (Hx : exec (PlayPause now :: evs) s = Some s2) by exact He.
    assert (Hf' : Forall (fun e => isSeek e = false) (PlayPause now :: evs))
      by (constructor; [reflexivity | exact Hf]).
    destruct (exec_units_fresh _ s s2 Hf' Hx) as (_ & Hu).
    intros u Hin. destruct (Hu u Hin) as [Hold | Hge]; [left; exact Hold|].
    right. intros Hb.
    pose proof (proj1 (Forall_forall _ _) Hids _ Hb) as Hlt; cbv beta in Hlt. lia.
Qed.

Lemma resume_from_paused_schedules_nothing_witness :
  match exec [PlayPause 0; ConnectSettled true 0;
              ServerMessage (Some (List.repeat 1 400)); ServerMessage (Some (List.repeat 2 400));
              DecodeDone 0 10; DecodeDone 0 20; AnimationFrame 1 48060; AnimationFrame 4 48060;
              PlayPause 48070] initial with
  | Some s =>
      match exec [ServerMessage (Some (List.repeat 3 400)); DecodeDone 0 48090]
              (handlePlayPause 48080 s) with
      | Some s2 =>
          currentPlaybackTime s = 50 /\ List.length (decodedAudioBuffers s) = 2%nat /\
          playbackState (handlePlayPause 48080 s) = Playing /\
          activeSources (handlePlayPause 48080 s) = [] /\
          activeSources s2 <> [] /\
          Forall (fun u => ~ In (src_buffer u) (decodedAudioBuffers s)) (activeSources s2)
      | None => False
      end
  | None => False
  end.
Proof.
  destruct (exec _ initial) as [s|] eqn:E; [|vm_compute in E; discriminate].
  vm_compute in E. injection E as <-.
  destruct (exec _ (handlePlayPause 48080 _)) as [s2|] eqn:E2; [|vm_compute in E2; discriminate].
  match type of E2 with exec ?evs (handlePlayPause _ ?s) = _ =>
    assert (H1 : playbackState s = Paused) by reflexivity;
    assert (H2 : session s = true) by reflexivity;
    assert (H3 : Forall (fun b => (buf_id b < nextObjectId s)%nat) (decodedAudioBuffers s))
      by (vm_compute; repeat constructor);
    assert (H4 : Forall (fun e => isSeek e = false) evs) by (repeat constructor);
    destruct (resume_from_paused_schedules_nothing 48080 s evs s2 H1 H2 H3 H4 E2)
      as ((R1 & _ & R2 & _) & Hu)
  end.
  split; [reflexivity|]. split; [reflexivity|]. split; [exact R1|]. split; [exact R2|].
  split; [vm_compute in E2; injection E2 as <-; discriminate|].
  apply Forall_forall. intros u Hin. destruct (Hu u Hin) as [[] | Hn]. exact Hn.
Defined.

(** C8 (amended): in paused or stopped no step other than a seek or a
    teardown changes the cursor [currentPlaybackTime]; but the cursor
    update ([updateProgress], when no drag is in progress) runs in loading
    as in playing and sets the cursor to
    [max 0 (min (now - streamStartTime) totalDuration)]. *)
Theorem cursor_frozen_unless_playing_or_loading (e : Event) (s s' : St) (now : Z) (r : St) :
  step e s = Some s' -> isSeek e = false -> teardown e = false ->
  pausedOrStopped (playbackState s) = true ->
  isSeeking r = false -> playingOrLoading (playbackState r) = true ->
  currentPlaybackTime s' = currentPlaybackTime s /\
  currentPlaybackTime (updateProgress now r) =
    Z.max 0 (Z.min (now - streamStartTime r) (totalDuration r)).
Proof.
  intros H Hs Ht Hp Hr Hl. split.
  - exact (step_cursor_frozen e s s' Hp Hs Ht H).
  - pose proof (updateProgress_fields now r) as (_ & _ & _ & _ & _ & _ & _ & _ & _ & _ & _ & H1).
    rewrite H1, Hr, Hl. reflexivity.
Qed.

Lemma cursor_frozen_unless_playing_or_loading_witness :
  match exec [PlayPause 0; ConnectSettled true 0;
              ServerMessage (Some (List.repeat 1 400)); ServerMessage (Some (List.repeat 2 400));
              DecodeDone 0 10; DecodeDone 0 20; AnimationFrame 1 48060; AnimationFrame 4 48060;
              PlayPause 48070] initial with
  | Some s =>
      match step (AnimationFrame 7 48100) s with
      | Some s1 =>
          playbackState s = Paused /\ currentPlaybackTime s = 50 /\ totalDuration s = 200 /\
          currentPlaybackTime s1 = 50 /\
          currentPlaybackTime (updateProgress 48100 (set_playbackState Loading s)) = 90
      | None => False
      end
  | None => False
  end.
Proof.
  destruct (exec _ initial) as [s|] eqn:E; [|vm_compute in E; discriminate].
  vm_compute in E. injection E as <-.
  destruct (step (AnimationFrame 7 48100) _) as [s1|] eqn:E1; [|vm_compute in E1; discriminate].
  match type of E1 with step _ ?s = _ =>
    destruct (cursor_frozen_unless_playing_or_loading (AnimationFrame 7 48100) s s1 48100
                (set_playbackState Loading s) E1 eq_refl eq_refl eq_refl eq_refl eq_refl)
      as (H1 & H2)
  end.
  split; [reflexivity|]. split; [reflexivity|]. split; [reflexivity|].
  split; [rewrite H1; reflexivity|]. rewrite H2. reflexivity.
Defined.

(** C9: a pause request leaves the ChunkStore ([receivedAudioChunks])
    unchanged; every step other than a teardown (reset or session error)
    only appends to it, and a teardown empties it. *)
Theorem chunkstore_append_only (now : Z) (e : Event) (s s' : St) :
  step e s = Some s' ->
  receivedAudioChunks (pauseAudio now s) = receivedAudioChunks s /\
  (teardown e = false -> exists sfx, receivedAudioChunks s' = receivedAudioChunks s ++ sfx) /\
  (teardown e = true -> receivedAudioChunks s' = []).
Proof.
  intros H. split; [apply pauseAudio_fields|]. split.
  - intros Ht. exact (step_chunks_grow e s s' Ht H).
  - intros Ht. destruct e; cbn in Ht; try discriminate; apply step_inv in H; subst;
      apply stopAudio_fields.
Qed.

Lemma chunkstore_append_only_witness :
  let s := handleServerMessage (Some [5; 6]) (set_session true (set_playbackState Playing initial)) in
  match step (PlayPause 3) s with
  | Some s' => receivedAudioChunks (pauseAudio 3 s) = [[5; 6]] /\
               exists sfx, receivedAudioChunks s' = [[5; 6]] ++ sfx
  | None => False
  end.
Proof.
  intros s.
  destruct (step (PlayPause 3) s) as [s'|] eqn:E; [|discriminate].
  destruct (chunkstore_append_only 3 (PlayPause 3) s s' E) as (H1 & H2 & _).
  destruct (H2 eq_refl) as (sfx & H3).
  split; [exact H1 | exists sfx; exact H3].
Defined.

(** C10: a decode that completes while paused or stopped appends its
    buffer to the Timeline but creates no unit and leaves [totalDuration]
    and [nextStartTime] unchanged; afterwards, as long as no seek happens,
    whatever other events follow, no scheduled unit plays that buffer
    (given, as in every reachable state, that the existing units play
    buffers allocated earlier). *)
Theorem paused_decode_not_scheduled (k : nat) (now : Z) (s s1 : St) (evs : list Event) (s2 : St) :
  pausedOrStopped (playbackState s) = true ->
  Forall (fun u => (buf_id (src_buffer u) < nextObjectId s)%nat) (activeSources s) ->
  decodeDone k now s = Some s1 ->
  Forall (fun e => isSeek e = false) evs ->
  exec evs s1 = Some s2 ->
  exists data, nth_error (pendingDecodes s) k = Some data /\
    let b := decodeAudioData (nextObjectId s) data 48000 2 in
    decodedAudioBuffers s1 = decodedAudioBuffers s ++ [b] /\
    activeSources s1 = activeSources s /\ totalDuration s1 = totalDuration s /\
    nextStartTime s1 = nextStartTime s /\
    Forall (fun u => buf_id (src_buffer u) <> buf_id b) (activeSources s2).
Proof.
  intros Hp Hids Hd Hf He.
  destruct (decodeDone_fields _ _ _ _ Hd) as (data & Hk & H1 & _ & _ & Hn & Hc).
  rewrite Hp in Hc. destruct Hc as (H2 & H3 & H4 & _).
  exists data. split; [exact Hk|]. cbn zeta. split; [exact H1|].
  split; [exact H2|]. split; [exact H3|]. split; [exact H4|].
  apply (exec_buffer_unscheduled _ evs s1 s2 Hf); [unfold decodeAudioData; cbn [buf_id]; lia| |exact He].
  rewrite H2. apply Forall_forall. intros u Hu.
  pose proof (proj1 (Forall_forall _ _) Hids u Hu) as Hlt; cbv beta in Hlt.
  unfold decodeAudioData; cbn [buf_id]. lia.
Qed.

Lemma paused_decode_not_scheduled_witness :
  match exec [PlayPause 0; ConnectSettled true 0;
              ServerMessage (Some [1; 1; 1; 1]); ServerMessage (Some [2; 2; 2; 2]);
              PlayPause 5] initial with
  | Some s =>
      match decodeDone 1 10 s with
      | Some s1 =>
          match exec [PlayPause 20; ServerMessage (Some [3; 3; 3; 3]); DecodeDone 0 30;
                      AnimationFrame 5 48030; DecodeDone 0 40] s1 with
          | Some s2 =>
              playbackState s = Paused /\
              map buf_data (decodedAudioBuffers s1) = [[2; 2; 2; 2]] /\
              totalDuration s1 = 0 /\ activeSources s1 = [] /\
              map (fun u => buf_data (src_buffer u)) (activeSources s2) =
                [[1; 1; 1; 1]; [3; 3; 3; 3]] /\
              In [2; 2; 2; 2] (map buf_data (decodedAudioBuffers s2)) /\
              Forall (fun u => buf_id (src_buffer u) <> nextObjectId s) (activeSources s2)
          | None => False
          end
      | None => False
      end
  | None => False
  end.
Proof.
  destruct (exec _ initial) as [s|] eqn:E; [|vm_compute in E; discriminate].
  vm_compute in E. injection E as <-.
  destruct (decodeDone 1 10 _) as [s1|] eqn:E1; [|vm_compute in E1; discriminate].
  pose proof E1 as E1'. vm_compute in E1'. injection E1' as <-.
  destruct (exec _ _) as [s2|] eqn:E2; [|vm_compute in E2; discriminate].
  pose proof E2 as E2'. vm_compute in E2'. injection E2' as <-.
  match type of E1 with decodeDone _ _ ?s = _ => match type of E2 with exec ?evs ?s1 = Some ?s2 =>
    assert (Hp : pausedOrStopped (playbackState s) = true) by reflexivity;
    assert (Hids : Forall (fun u => (buf_id (src_buffer u) < nextObjectId s)%nat) (activeSources s))
      by (vm_compute; constructor);
    assert (Hf : Forall (fun e => isSeek e = false) evs) by (repeat constructor);
    destruct (paused_decode_not_scheduled 1 10 s s1 evs s2 Hp Hids E1 Hf E2)
      as (data & Hk & H1 & H2 & H3 & _ & H5)
  end end.
  vm_compute in Hk. injection Hk as <-.
  split; [reflexivity|]. split; [rewrite H1; reflexivity|].
  split; [rewrite H3; reflexivity|]. split; [rewrite H2; reflexivity|].
  split; [reflexivity|]. split; [cbn; tauto|].
  exact H5.
Defined.

Lemma gapless_lookahead_scheduling_witness :
  let s := set_playbackState Playing initial in
  let evs := [(mkBuffer 1 [] 100, 10); (mkBuffer 2 [] 50, 200000)] in
  exists units, activeSources (decodeRun evs s) = activeSources s ++ units /\
    map src_buffer units = map fst evs /\ Forall (fun u => src_offset u = 0) units.
Proof.
  intros s evs.
  assert (H1 : playingOrLoading (playbackState s) = true) by reflexivity.
  assert (H2 : 0 <= nextStartTime s) by (simpl; lia).
  assert (H3 : Forall (fun p => 0 <= snd p /\ 0 <= duration (fst p)) evs)
    by (repeat constructor; simpl; lia).
  destruct (gapless_lookahead_scheduling evs s H1 H2 H3) as (units & U1 & U2 & U3 & _).
  exists units. auto.
Defined.

Lemma seek_to_buffer_boundary_witness :
  let b1 := mkBuffer 1 [] 100 in
  let b2 := mkBuffer 2 [] 100 in
  let s := set_decodedAudioBuffers [b1; b2] (set_totalDuration 200 (set_playbackState Playing initial)) in
  map unitView (activeSources (seekToTime 30 100 s)) = [(b1, 30, 100); (b2, 30, 0)].
Proof.
  intros b1 b2 s.
  assert (H1 : decodedAudioBuffers s = [] ++ b1 :: [b2]) by reflexivity.
  assert (H2 : Forall (fun x => 0 <= duration x) (@nil AudioBuffer)) by constructor.
  assert (H3 : 0 < duration b1) by (simpl; lia).
  assert (H4 : 100 = sumDur [] + duration b1) by reflexivity.
  destruct (seek_to_buffer_boundary [] [b2] b1 30 100 s H1 H2 H3 H4) as (R & _).
  rewrite R. reflexivity.
Defined.

Lemma seek_to_total_duration_witness :
  let s := set_decodedAudioBuffers [mkBuffer 1 [] 100; mkBuffer 2 [] 100]
             (set_totalDuration 200 (set_playbackState Playing initial)) in
  activeSources (seekToTime 30 (totalDuration s) s) <> [] /\
  nextStartTime (seekToTime 30 (totalDuration s) s) = 30.
Proof.
  intros s.
  assert (H1 : decodedAudioBuffers s <> []) by discriminate.
  assert (H2 : Forall (fun b => 0 <= duration b) (decodedAudioBuffers s))
    by (repeat constructor; simpl; lia).
  assert (H3 : totalDuration s = sumDur (decodedAudioBuffers s)) by reflexivity.
  destruct (seek_to_total_duration 30 s H1 H2 H3) as (R1 & _ & R3).
  split; assumption.
Defined.

End PlayerProofs.

(** ** WAV export past 4 GiB *)

Module WavWrap.
Import Wav WavProofs.

Lemma land_shiftr_mod32 (v k : Z) :
  0 <= k -> k + 8 <= 32 ->
  Z.land (Z.shiftr (v mod 2 ^ 32) k) 255 = Z.land (Z.shiftr v k) 255.
Proof.
  intros Hk Hk8. apply Z.bits_inj'. intros n Hn.
  change 255 with (Z.ones 8). rewrite !Z.land_spec, !Z.shiftr_spec by lia.
  destruct (n <? 8) eqn:E.
  - apply Z.ltb_lt in E. rewrite Z.mod_pow2_bits_low by lia. reflexivity.
  - apply Z.ltb_ge in E. rewrite Z.ones_spec_high by lia. rewrite !andb_false_r. reflexivity.
Qed.

Lemma le32_mod_bytes (v : Z) :
  le32 (v mod 2 ^ 32) =
  [Z.land v 255; Z.land (Z.shiftr v 8) 255; Z.land (Z.shiftr (Z.shiftr v 8) 8) 255;
   Z.land (Z.shiftr (Z.shiftr (Z.shiftr v 8) 8) 8) 255].
Proof.
  rewrite le32_bytes by (apply Z.mod_pos_bound; lia).
  rewrite !Z.shiftr_shiftr by lia.
  rewrite <- (Z.shiftr_0_r (v mod 2 ^ 32)), <- (Z.shiftr_0_r v) at 1.
  rewrite !land_shiftr_mod32 by lia. reflexivity.
Qed.

(** The header of [handleDownloadWav] for any [dataLength]: [setUint32]
    keeps the value modulo [2^32], so a size that does not fit wraps. *)
Lemma writeWavHeader_wraps (N : Z) :
  writeWavHeader N audioContext_sampleRate 2 16 =
  Some (char_codes "RIFF" ++ le32 ((36 + N) mod 2 ^ 32) ++
        firstn 32 (skipn 8 (canonicalWavHeader 0 audioContext_sampleRate 2 16)) ++
        le32 (N mod 2 ^ 32)).
Proof.
  rewrite !le32_mod_bytes. reflexivity.
Qed.

(** For every non-empty recording of [N] bytes, whatever its size,
    [handleDownloadWav] produces a file of [44 + N] bytes ending with the
    chunks; its RIFF size (offset 4) and data size (offset 40) hold
    [36 + N] and [N] modulo [2^32], since [setUint32] keeps the low 32 bits:
    past 4 GiB both fields wrap around. *)
Theorem wav_size_fields_wrap (chunks : list (list Z)) :
  chunks <> [] ->
  let N := Z.of_nat (List.length (List.concat chunks)) in
  exists w, handleDownloadWav chunks = Some w /\
    Z.of_nat (List.length w) = 44 + N /\
    skipn 44 w = List.concat chunks /\
    firstn 4 (skipn 4 w) = le32 ((36 + N) mod 2 ^ 32) /\
    firstn 4 (skipn 40 w) = le32 (N mod 2 ^ 32).
Proof.
  intros Hne N.
  eexists. split.
  - unfold handleDownloadWav. destruct chunks as [|c cs]; [congruence|].
    rewrite fold_chunk_length, Z.add_0_l. fold N.
    rewrite writeWavHeader_wraps. reflexivity.
  - rewrite length_app, Nat2Z.inj_add. cbn. repeat split; lia.
Qed.

Lemma wav_size_fields_wrap_witness :
  [[1; 2]; [3]] <> [] /\
  exists w, handleDownloadWav [[1; 2]; [3]] = Some w /\
    firstn 4 (skipn 40 w) = le32 (3 mod 2 ^ 32).
Proof.
  assert (Hne : [[1; 2]; [3]] <> []) by discriminate.
  split; [exact Hne|].
  destruct (wav_size_fields_wrap [[1; 2]; [3]] Hne) as (w & W1 & _ & _ & _ & W5).
  exists w. split; [exact W1 | exact W5].
Defined.

End WavWrap.

(** ** Playback: cursor, seeking, reset and pause *)

Module PlayerExtra.
Import Player.
Import PlayerProofs.

Lemma updateProgress_inv (now : Z) (s : St) :
  0 <= currentPlaybackTime s <= totalDuration s -> 0 <= currentPlaybackTime (updateProgress now s) <= totalDuration (updateProgress now s).
Proof.
  intros H.
  pose proof (updateProgress_fields now s) as (_ & H1 & _ & _ & _ & _ & _ & _ & _ & _ & _ & H2).
  rewrite H1, H2. destruct (_ || _); lia.
Qed.

Lemma scheduleDecoded_inv (b : AudioBuffer) (now : Z) (s : St) :
  0 <= duration b -> 0 <= currentPlaybackTime s <= totalDuration s -> 0 <= currentPlaybackTime (scheduleDecoded b now s) <= totalDuration (scheduleDecoded b now s).
Proof.
  intros Hb H.
  destruct s as [st td cp act bufs seeking ss sess chunks next gt ge afid pf pd pc nid].
  unfold scheduleDecoded, updateProgress, requestAnimationFrame.
  cbn in H. st_cases; lia.
Qed.

Lemma loadAudio_inv (now : Z) (s : St) :
  0 <= currentPlaybackTime s <= totalDuration s -> 0 <= currentPlaybackTime (loadAudio now s) <= totalDuration (loadAudio now s).
Proof.
  intros H.
  pose proof (loadAudio_fields now s) as (H1 & _ & _ & _ & _ & _ & _ & _ & _ & H2 & _).
  pose proof (updateProgress_inv now s H) as H3.
  pose proof (updateProgress_fields now s) as (_ & H4 & _).
  rewrite H1, H2. destruct (session s); lia.
Qed.

Lemma step_cursor_inv (e : Event) (s s' : St) :
  step e s = Some s' -> 0 <= currentPlaybackTime s <= totalDuration s -> 0 <= currentPlaybackTime s' <= totalDuration s'.
Proof.
  intros Hs H.
  destruct e as [d|k now|now|ok now| | |id now|id|t now|k].
  - apply step_inv in Hs; subst.
    destruct (handleServerMessage_fields d s) as (_ & H1 & H2 & _). rewrite H1, H2. exact H.
  - unfold step, decodeDone in Hs.
    destruct (nth_error (pendingDecodes s) k) as [data|]; [|discriminate].
    injection Hs as <-. unfold decodeCallback.
    pose proof (decodeAudioData_duration_nonneg (nextObjectId s) data) as Hb.
    destruct s as [st td cp act bufs seeking ss sess chunks next gt ge afid pf pd pc nid].
    st_simpl. destruct (pausedOrStopped st); [exact H|].
    apply scheduleDecoded_inv; [exact Hb | exact H].
  - apply step_inv in Hs; subst.
    destruct (handlePlayPause_cases now s) as [(_ & ->)|[(_ & _ & ->)|(_ & _ & ->)]].
    + pose proof (pauseAudio_fields now s) as (H1 & H2 & _). rewrite H1, H2. exact H.
    + apply loadAudio_inv. exact H.
    + destruct s; exact H.
  - apply step_inv in Hs. destruct Hs as (n & ->). unfold connectToSession_end.
    destruct ok.
    + apply loadAudio_inv. destruct s; exact H.
    + destruct s; exact H.
  - apply step_inv in Hs; subst.
    pose proof (stopAudio_fields s) as (H1 & H2 & _). rewrite H1, H2. lia.
  - apply step_inv in Hs; subst.
    pose proof (stopAudio_fields s) as (H1 & H2 & _). rewrite H1, H2. lia.
  - apply step_inv in Hs; subst. apply updateProgress_inv. destruct s; exact H.
  - apply step_inv in Hs; subst.
    destruct (sourceEnded_fields id s) as (H1 & H2 & _). rewrite H1, H2. exact H.
  - unfold step, handleSeek in Hs.
    destruct (_ || _); [injection Hs as <-; exact H|].
    destruct ((0 <=? t) && (t <=? totalDuration s)) eqn:E; [|discriminate].
    injection Hs as <-. apply andb_true_iff in E as [E1 E2].
    apply Z.leb_le in E1, E2.
    pose proof (seekToTime_frame now t s) as (_ & _ & _ & H1 & H2 & _).
    rewrite H1, H2. lia.
  - apply step_inv in Hs. destruct (decodeRejected_fields _ _ _ Hs) as (_ & _ & ->).
    destruct s; exact H.
Qed.

Lemma exec_cursor_inv (evs : list Event) (s s' : St) :
  exec evs s = Some s' -> 0 <= currentPlaybackTime s <= totalDuration s -> 0 <= currentPlaybackTime s' <= totalDuration s'.
Proof.
  revert s; induction evs as [|e evs IH]; intros s Hx H; cbn in Hx.
  - injection Hx as <-. exact H.
  - destruct (step e s) as [s1|] eqn:E; [|discriminate].
    exact (IH s1 Hx (step_cursor_inv e s s1 E H)).
Qed.

(** From the freshly constructed component, every run of events keeps the
    progress cursor on the bar: [0 <= currentPlaybackTime <= totalDuration].
    [updateProgress] clamps the elapsed time into [[0, totalDuration]], a
    decode only makes [totalDuration] grow, a seek goes to a time inside the
    bar, and [stopAudio] resets both to [0]. *)
Theorem cursor_within_total (evs : list Event) (s : St) :
  exec evs initial = Some s ->
  0 <= currentPlaybackTime s <= totalDuration s.
Proof.
  intros H. apply (exec_cursor_inv evs initial s H). cbn. lia.
Qed.

Lemma cursor_within_total_witness :
  match exec [PlayPause 0; ConnectSettled true 0; ServerMessage (Some [1; 2; 3; 4]);
              DecodeDone 0 10] initial with
  | Some s => exec [PlayPause 0; ConnectSettled true 0; ServerMessage (Some [1; 2; 3; 4]);
                    DecodeDone 0 10] initial = Some s /\
              0 <= currentPlaybackTime s <= totalDuration s
  | None => False
  end.
Proof.
  destruct (exec _ initial) as [s|] eqn:E; [|vm_compute in E; discriminate].
  split; [reflexivity|]. exact (cursor_within_total _ s E).
Defined.

Lemma seekLoop_end (bufs : list AudioBuffer) (t acc : Z) (s : St) :
  acc <= t <= acc + sumDur bufs ->
  nextStartTime (seekLoop bufs t acc false s) = nextStartTime s + (acc + sumDur bufs - t).
Proof.
  revert acc s; induction bufs as [|b bufs IH]; intros acc s Ht; cbn [seekLoop sumDur] in *.
  - lia.
  - cbn [negb andb]. destruct (t <=? acc + duration b) eqn:E.
    + apply Z.leb_le in E.
      destruct (seekLoop_scheduled bufs t (acc + duration b)
                  (scheduleBuffer b (nextStartTime s) (t - acc) s)) as [_ H1].
      rewrite H1.
      destruct (scheduleBuffer_fields b (nextStartTime s) (t - acc) s) as (_ & H2 & _).
      rewrite H2. lia.
    + apply Z.leb_gt in E. rewrite IH by lia. lia.
Qed.

(** Seeking to a time [t] inside the decoded audio ([0 <= t <=] the sum of
    the durations of [decodedAudioBuffers]) leaves [nextStartTime] at [now]
    plus the decoded audio that remains after [t]: the buffer holding [t]
    plays from its offset and every later buffer follows it back to back,
    so a buffer decoded next is queued right after the end. *)
Theorem seek_queue_end (now t : Z) (s : St) :
  0 <= t <= sumDur (decodedAudioBuffers s) ->
  nextStartTime (seekToTime now t s) = now + (sumDur (decodedAudioBuffers s) - t).
Proof.
  intros Ht. destruct (seekToTime_loop now t s) as (_ & H1 & _ & H2).
  rewrite H1, seekLoop_end.
  - rewrite H2. lia.
  - lia.
Qed.

Lemma seek_queue_end_witness :
  0 <= 30 <= sumDur (decodedAudioBuffers
    (set_decodedAudioBuffers [mkBuffer 1 [] 20; mkBuffer 2 [] 25] initial)) /\
  nextStartTime (seekToTime 100 30
    (set_decodedAudioBuffers [mkBuffer 1 [] 20; mkBuffer 2 [] 25] initial)) =
  100 + (sumDur (decodedAudioBuffers
    (set_decodedAudioBuffers [mkBuffer 1 [] 20; mkBuffer 2 [] 25] initial)) - 30).
Proof.
  split; [vm_compute; split; discriminate|].
  apply seek_queue_end. vm_compute. split; discriminate.
Defined.

(** [stopAudio] (the reset button, and the session's [onerror] handler)
    is idempotent: a second teardown right after the first
    changes nothing. *)
Theorem stopAudio_idempotent (s : St) : stopAudio (stopAudio s) = stopAudio s.
Proof.
  unfold stopAudio, clearAllSources. rewrite !cancelCurrentFrame_fields.
  destruct s as [st td cp act bufs seeking ss sess chunks next gt ge afid pf pd pc nid].
  st_simpl. destruct afid as [id|]; [|reflexivity].
  rewrite remove_remove_eq. reflexivity.
Qed.

(** Pausing a live session (while [isSeeking] is false) ends the progress
    loop: the frame [animationFrameId] that [pauseAudio] cancels never runs,
    and any other pending frame that still runs while paused requests no new
    frame (the pending frames shrink), leaves the cursor where it is and the
    state [paused]. *)
Theorem pause_ends_frame_loop (now : Z) (s : St) :
  session s = true -> isSeeking s = false ->
  let p := pauseAudio now s in
  (forall id, animationFrameId s = Some id -> forall t, step (AnimationFrame id t) p = None) /\
  (forall id t s', step (AnimationFrame id t) p = Some s' ->
     (List.length (pendingFrames s') < List.length (pendingFrames p))%nat /\
     currentPlaybackTime s' = currentPlaybackTime p /\ playbackState s' = Paused).
Proof.
  intros Hs Hk. cbv zeta.
  unfold pauseAudio, clearAllSources. rewrite Hs, cancelCurrentFrame_fields.
  destruct s as [st td cp act bufs seeking ss sess chunks next gt ge afid pf pd pc nid].
  cbn in Hs, Hk; subst. st_simpl. split.
  - intros id -> t. cbn.
    destruct (existsb (Nat.eqb id) (remove Nat.eq_dec id pf)) eqn:E; [|reflexivity].
    apply existsb_exists in E as (x & Hx & Hxe). apply Nat.eqb_eq in Hxe; subst.
    exfalso. exact (remove_In _ _ _ Hx).
  - intros id t s' H. cbn in H.
    destruct (existsb (Nat.eqb id) _) eqn:E; [|discriminate].
    injection H as <-. cbn.
    apply existsb_exists in E as (x & Hx & Hxe). apply Nat.eqb_eq in Hxe; subst.
    split; [apply remove_length_lt; exact Hx | split; reflexivity].
Qed.

Lemma pause_ends_frame_loop_witness :
  match exec [PlayPause 0; ConnectSettled true 0] initial with
  | Some s => session s = true /\ isSeeking s = false /\ animationFrameId s = Some 1%nat /\
              forall t, step (AnimationFrame 1 t) (pauseAudio 5 s) = None
  | None => False
  end.
Proof.
  destruct (exec _ initial) as [s|] eqn:E; [|vm_compute in E; discriminate].
  vm_compute in E. injection E as <-.
  assert (H1 : session (mkSt Loading 0 0 [] [] false 0 true [] 0 1 4800 (Some 1%nat) [1%nat] [] 0 2) = true)
    by reflexivity.
  assert (H2 : isSeeking (mkSt Loading 0 0 [] [] false 0 true [] 0 1 4800 (Some 1%nat) [1%nat] [] 0 2) = false)
    by reflexivity.
  split; [exact H1|]. split; [exact H2|]. split; [reflexivity|].
  destruct (pause_ends_frame_loop 5 _ H1 H2) as [H _]. exact (H 1%nat eq_refl).
Defined.

End PlayerExtra.

(** ** [throttle] *)

Module ThrottleProofs.
Import Throttle.

Lemma ranAt_head (delay lastCall : Z) (nows : list Z) (a : Z) (post : list Z) :
  ranAt delay lastCall nows = a :: post -> delay <= a - lastCall.
Proof.
  revert lastCall. induction nows as [|now rest IH]; intros lastCall H; cbn in H.
  - discriminate.
  - unfold throttle_call in H. destruct (delay <=? now - lastCall) eqn:E.
    + injection H as <- _. lia.
    + exact (IH _ H).
Qed.

(** Calls of a throttled function are at least [delay] apart: the first call
    that runs comes at least [delay] after the initial [lastCall], and any two
    consecutive runs are at least [delay] apart, whatever the call times. *)
Theorem throttle_runs_spaced (delay lastCall : Z) (nows : list Z) :
  (forall a post, ranAt delay lastCall nows = a :: post -> delay <= a - lastCall) /\
  (forall pre a b post, ranAt delay lastCall nows = pre ++ a :: b :: post ->
     delay <= b - a).
Proof.
  split; [intros; eapply ranAt_head; eauto|].
  revert lastCall. induction nows as [|now rest IH]; intros lastCall pre a b post H;
    cbn in H.
  - destruct pre; discriminate.
  - unfold throttle_call in H. destruct (delay <=? now - lastCall) eqn:E.
    + destruct pre as [|x pre]; cbn in H; injection H as Hx Ht.
      * apply ranAt_head in Ht. subst. exact Ht.
      * exact (IH _ _ _ _ _ Ht).
    + exact (IH _ _ _ _ _ H).
Qed.

End ThrottleProofs.

(** ** Prompts *)

Module PromptsProofs.
Import Prompts.

Lemma randomIndex_bounds (r : Q) (n : nat) :
  (0 <= r < 1)%Q -> (0 < n)%nat -> 0 <= randomIndex r n < Z.of_nat n.
Proof.
  intros [H0 H1] Hn. unfold randomIndex.
  assert (Hn' : (0 < inject_Z (Z.of_nat n))%Q).
  { change 0%Q with (inject_Z 0). rewrite <- Zlt_Qlt. lia. }
  split.
  - rewrite <- (Qfloor_Z 0). apply Qfloor_resp_le. change (inject_Z 0) with 0%Q.
    apply Qmult_le_0_compat; [exact H0 | apply Qlt_le_weak, Hn'].
  - rewrite Zlt_Qlt. eapply Qle_lt_trans; [apply Qfloor_le|].
    rewrite <- (Qmult_1_l (inject_Z (Z.of_nat n))) at 2.
    apply Qmult_lt_r; assumption.
Qed.

Lemma arrayGet_in {A} (l : list A) (i : Z) :
  0 <= i < Z.of_nat (List.length l) -> exists x, arrayGet l i = Some x /\ In x l.
Proof.
  intros Hi. unfold arrayGet. destruct (i <? 0) eqn:E; [lia|].
  destruct (nth_error l (Z.to_nat i)) as [x|] eqn:Ex.
  - exists x. split; [reflexivity | eapply nth_error_In; eauto].
  - apply nth_error_None in Ex. lia.
Qed.

(** For a draw [0 <= r < 1] of [Math.random()], [getUnusedRandomColor]
    returns one of the eight [COLORS], never [undefined]; and while some
    colour of [COLORS] is unused, the colour returned is an unused one. *)
Theorem getUnusedRandomColor_spec (usedColors : list (option string)) (r : Q) :
  (0 <= r < 1)%Q ->
  exists c, getUnusedRandomColor usedColors r = Some c /\ In c COLORS /\
    ((exists c', In c' COLORS /\ includes usedColors c' = false) ->
     includes usedColors c = false).
Proof.
  intros Hr. unfold getUnusedRandomColor.
  set (av := filter (fun c => negb (includes usedColors c)) COLORS).
  destruct (List.length av =? 0)%nat eqn:E.
  - destruct (arrayGet_in COLORS (randomIndex r (List.length COLORS)))
      as [c [Hc Hin]].
    { apply randomIndex_bounds; [exact Hr | cbn; lia]. }
    exists c. split; [exact Hc|]. split; [exact Hin|].
    intros [c' [Hc' Hu]]. exfalso.
    apply Nat.eqb_eq, length_zero_iff_nil in E.
    assert (In c' av) by (apply filter_In; rewrite Hu; auto).
    rewrite E in H. destruct H.
  - apply Nat.eqb_neq in E.
    destruct (arrayGet_in av (randomIndex r (List.length av))) as [c [Hc Hin]].
    { apply randomIndex_bounds; [exact Hr | lia]. }
    apply filter_In in Hin. destruct Hin as [Hin Hu].
    exists c. split; [exact Hc|]. split; [exact Hin|].
    intros _. apply negb_true_iff, Hu.
Qed.

Lemma getUnusedRandomColor_spec_witness :
  (0 <= 1#2 < 1)%Q /\
  exists c, getUnusedRandomColor [Some "#9900ff"%string] (1#2) = Some c /\ In c COLORS /\
    includes [Some "#9900ff"%string] c = false.
Proof.
  assert (H : (0 <= 1#2 < 1)%Q) by (vm_compute; split; [discriminate | reflexivity]).
  split; [exact H|].
  destruct (getUnusedRandomColor_spec [Some "#9900ff"%string] (1#2) H) as (c & H1 & H2 & H3).
  exists c. split; [exact H1|]. split; [exact H2|].
  apply H3. exists "#5200ff"%string. split; [cbn; tauto | reflexivity].
Defined.

Lemma natString_inj (a b : nat) : natString a = natString b -> a = b.
Proof.
  intros H. unfold natString in H.
  assert (Hnil : forall n, Nat.to_uint n <> Decimal.Nil).
  { intros n Hn. pose proof (DecimalNat.Unsigned.of_to n) as Ho.
    rewrite Hn in Ho. cbn in Ho. subst n. discriminate. }
  apply (f_equal NilZero.uint_of_string) in H.
  rewrite !NilZero.usu in H by apply Hnil.
  injection H as H. exact (DecimalNat.Unsigned.to_uint_inj _ _ H).
Qed.

Lemma promptId_string_inj (a b : nat) :
  ("prompt-" ++ natString a)%string = ("prompt-" ++ natString b)%string -> a = b.
Proof. cbn. intros H. injection H as H. exact (natString_inj _ _ H). Qed.

Lemma addPrompt_inv t w r st : idsInv st -> idsInv (addPrompt t w r st).
Proof.
  intros [Hnd Hk]. unfold idsInv, addPrompt; cbn [prompts nextPromptId].
  rewrite map_app. cbn [map promptId]. split.
  - eapply Permutation_NoDup; [apply Permutation_app_comm|]. cbn.
    constructor; [|exact Hnd].
    intros Hin. destruct (Hk _ Hin) as [k [Hlt Heq]].
    apply promptId_string_inj in Heq. lia.
  - intros id Hin. apply in_app_or in Hin. destruct Hin as [Hin|[<-|[]]].
    + destruct (Hk _ Hin) as [k [Hlt Heq]]. exists k. split; [lia|exact Heq].
    + exists (nextPromptId st). split; [lia|reflexivity].
Qed.

Lemma handlePromptChanged_ids p st :
  map promptId (prompts (handlePromptChanged p st)) = map promptId (prompts st).
Proof.
  unfold handlePromptChanged; cbn [prompts]. rewrite map_map.
  apply map_ext. intros q. destruct (String.eqb (promptId q) (promptId p)) eqn:E.
  - apply String.eqb_eq in E. congruence.
  - reflexivity.
Qed.

Lemma handlePromptRemoved_ids id st :
  map promptId (prompts (handlePromptRemoved id st)) =
  filter (fun x => negb (String.eqb x id)) (map promptId (prompts st)).
Proof.
  unfold handlePromptRemoved; cbn [prompts].
  induction (prompts st) as [|q qs IH]; cbn; [reflexivity|].
  destruct (String.eqb (promptId q) id); cbn; rewrite IH; reflexivity.
Qed.

Lemma promptStep_inv op st : idsInv st -> idsInv (promptStep op st).
Proof.
  intros Hi. destruct op as [t w r|p|id]; cbn [promptStep].
  - apply addPrompt_inv, Hi.
  - destruct Hi as [Hnd Hk]. unfold idsInv. rewrite handlePromptChanged_ids.
    split; [exact Hnd | exact Hk].
  - destruct Hi as [Hnd Hk]. unfold idsInv. rewrite handlePromptRemoved_ids.
    split; [apply NoDup_filter, Hnd|].
    intros x Hx. apply filter_In in Hx. exact (Hk _ (proj1 Hx)).
Qed.

(** Prompt ids stay unique: after any sequence of [addPrompt],
    [handlePromptChanged] and [handlePromptRemoved] from the empty list, the
    ids in [prompts] are pairwise distinct and each is [prompt-k] with [k]
    below [nextPromptId], so an id is never handed out twice, even after
    removals. *)
Theorem prompt_ids_unique (ops : list PromptOp) :
  let st := promptsExec ops promptsInitial in
  NoDup (map promptId (prompts st)) /\
  forall id, In id (map promptId (prompts st)) ->
    exists k, (k < nextPromptId st)%nat /\ id = ("prompt-" ++ natString k)%string.
Proof.
  cbn zeta. change (idsInv (promptsExec ops promptsInitial)).
  unfold promptsExec.
  assert (H0 : idsInv promptsInitial) by (split; [constructor | intros ? []]).
  revert H0. generalize promptsInitial.
  induction ops as [|op ops IH]; intros st Hst; cbn; [exact Hst|].
  apply IH, promptStep_inv, Hst.
Qed.

Lemma find_by_id ps p :
  NoDup (map promptId ps) -> In p ps ->
  find (fun q => String.eqb (promptId q) (promptId p)) ps = Some p.
Proof.
  induction ps as [|q qs IH]; intros Hnd Hin; [destruct Hin|].
  cbn in Hnd |- *. inversion Hnd as [|? ? Hnot Hnd']; subst.
  destruct (String.eqb (promptId q) (promptId p)) eqn:E.
  - apply String.eqb_eq in E. destruct Hin as [->|Hin]; [reflexivity|].
    exfalso. apply Hnot. rewrite E. apply in_map, Hin.
  - destruct Hin as [->|Hin]; [rewrite String.eqb_refl in E; discriminate|].
    exact (IH Hnd' Hin).
Qed.

(** When the ids read from the DOM after a drag are a reordering of the
    prompts' ids (the ids being distinct), [handleDrop] finds a prompt for
    every id: the new array has no [undefined] entry, is a permutation of the
    old prompts, and lists them in the DOM order. *)
Theorem handleDrop_reorders (newOrderedIds : list string) (ps : list Prompt) :
  NoDup (map promptId ps) ->
  Permutation newOrderedIds (map promptId ps) ->
  exists ps', handleDrop_prompts newOrderedIds ps = map Some ps' /\
    Permutation ps ps' /\ map promptId ps' = newOrderedIds.
Proof.
  intros Hnd Hp. destruct (Permutation_map_inv _ _ Hp) as [ps' [-> Hperm]].
  exists ps'. split; [|split; [exact Hperm | reflexivity]].
  unfold handleDrop_prompts. rewrite map_map. apply map_ext_in.
  intros p Hin. apply find_by_id; [exact Hnd|].
  apply (Permutation_in _ (Permutation_sym Hperm)), Hin.
Qed.

Lemma handleDrop_reorders_witness :
  let ps := [mkPrompt "prompt-0" "Bossa Nova" 1 None; mkPrompt "prompt-1" "Chillwave" 1 None] in
  NoDup (map promptId ps) /\ Permutation ["prompt-1"; "prompt-0"]%string (map promptId ps) /\
  exists ps', handleDrop_prompts ["prompt-1"; "prompt-0"]%string ps = map Some ps' /\
    map promptId ps' = ["prompt-1"; "prompt-0"]%string.
Proof.
  cbv zeta.
  assert (H1 : NoDup (map promptId [mkPrompt "prompt-0" "Bossa Nova" 1 None;
                                    mkPrompt "prompt-1" "Chillwave" 1 None])).
  { cbn. constructor; [intros [E|[]]; discriminate E|]. constructor; [intros []|constructor]. }
  assert (H2 : Permutation ["prompt-1"; "prompt-0"]%string
                 (map promptId [mkPrompt "prompt-0" "Bossa Nova" 1 None;
                                mkPrompt "prompt-1" "Chillwave" 1 None])).
  { cbn. apply perm_swap. }
  split; [exact H1|]. split; [exact H2|].
  destruct (handleDrop_reorders _ _ H1 H2) as (ps' & E1 & _ & E3).
  exists ps'. split; [exact E1 | exact E3].
Defined.

Lemma clamp_range (lo hi q : Q) : (lo <= hi -> lo <= Qmax lo (Qmin hi q) <= hi)%Q.
Proof.
  intros H. split; [apply Q.le_max_l|].
  apply Q.max_lub; [exact H | apply Q.le_min_l].
Qed.

(** The weight inputs of a prompt ([min="0"], [max="2"]) keep its weight in
    [[0, 2]]: from a weight in that range, [_setWeightFromInput] leaves a
    weight in that range whatever was typed; a number inside [[0, 2]] is
    taken as it is and the field is left alone; a number above [2] or below
    [0] is replaced by that bound, which is also written back to the field;
    a blank field sets the weight to [0] and any other unparsable text
    leaves it unchanged. *)
Theorem setWeightFromInput_range (newWeight : option Q) (blank : bool) (w : Q) :
  (0 <= w <= 2)%Q ->
  let (w', rewritten) := setWeightFromInput newWeight blank (Some 0%Q) (Some 2%Q) w in
  (0 <= w' <= 2)%Q /\
  (forall q, newWeight = Some q -> (0 <= q <= 2)%Q -> w' == q /\ rewritten = None)%Q /\
  (forall q, newWeight = Some q -> (2 < q)%Q -> w' == 2 /\ rewritten = Some w')%Q /\
  (forall q, newWeight = Some q -> (q < 0)%Q -> w' == 0 /\ rewritten = Some w')%Q /\
  (newWeight = None -> w' = if blank then 0%Q else w).
Proof.
  intros Hw. unfold setWeightFromInput, numberOr.
  destruct newWeight as [q|]; cbn [Qeq_bool Qle_bool].
  - change (Qeq_bool 0 0) with true. change (Qeq_bool 2 0) with false.
    cbn iota.
    assert (Hc : (0 <= Qmax 0 (Qmin 2 q) <= 2)%Q) by (apply clamp_range; lra).
    split; [exact Hc|]. split; [|split; [|split]].
    + intros q' Hq' Hr. injection Hq' as <-.
      assert (E0 : Qmax 0 (Qmin 2 q) == q)
        by (rewrite Q.min_r by lra; rewrite Q.max_r by lra; reflexivity).
      split; [exact E0|]. apply Qeq_bool_iff in E0. rewrite E0. reflexivity.
    + intros q' Hq' Hr. injection Hq' as <-.
      assert (E0 : Qmax 0 (Qmin 2 q) == 2)
        by (rewrite Q.min_l by lra; rewrite Q.max_r by lra; reflexivity).
      split; [exact E0|].
      destruct (Qeq_bool (Qmax 0 (Qmin 2 q)) q) eqn:E; [|reflexivity].
      apply Qeq_bool_iff in E. lra.
    + intros q' Hq' Hr. injection Hq' as <-.
      assert (E0 : Qmax 0 (Qmin 2 q) == 0)
        by (rewrite Q.min_r by lra; rewrite Q.max_l by lra; reflexivity).
      split; [exact E0|].
      destruct (Qeq_bool (Qmax 0 (Qmin 2 q)) q) eqn:E; [|reflexivity].
      apply Qeq_bool_iff in E. lra.
    + discriminate.
  - destruct blank; (split; [lra|]); repeat split; intros; try discriminate; reflexivity.
Qed.

Lemma setWeightFromInput_range_witness :
  (0 <= 1 <= 2)%Q /\ (fst (setWeightFromInput (Some 3%Q) false (Some 0%Q) (Some 2%Q) 1) == 2)%Q.
Proof.
  assert (H : (0 <= 1 <= 2)%Q) by (vm_compute; split; discriminate).
  split; [exact H|].
  pose proof (setWeightFromInput_range (Some 3%Q) false 1 H) as Hc.
  destruct (setWeightFromInput (Some 3%Q) false (Some 0%Q) (Some 2%Q) 1) as [w' rw].
  destruct Hc as (_ & _ & H3 & _). cbn [fst].
  apply (H3 3%Q eq_refl). vm_compute. reflexivity.
Defined.

(** [WeightSlider.updateValueFromPosition] maps every pointer position to a
    value in [[0, 2]] when the track has a positive height: [2] at or above
    the track's top, [0] at or below its bottom. *)
Theorem updateValueFromPosition_range (top trackHeight clientY : Q) :
  (0 < trackHeight)%Q ->
  let v := updateValueFromPosition top trackHeight clientY in
  (0 <= v <= 2)%Q /\
  ((clientY <= top)%Q -> v == 2)%Q /\
  ((top + trackHeight <= clientY)%Q -> v == 0)%Q.
Proof.
  intros Hh. unfold updateValueFromPosition. cbn zeta.
  set (m := Qmax 0 (Qmin trackHeight (clientY - top))).
  assert (Hm : (0 <= m <= trackHeight)%Q) by (apply clamp_range; lra).
  assert (H0 : (0 <= m / trackHeight)%Q).
  { apply Qle_shift_div_l; [exact Hh|]. lra. }
  assert (H1 : (m / trackHeight <= 1)%Q).
  { apply Qle_shift_div_r; [exact Hh|]. lra. }
  repeat split; try lra; intros Hy.
  - assert (Hz : m == 0) by (unfold m; rewrite Q.min_r by lra; apply Q.max_l; lra).
    rewrite Hz. unfold Qdiv. rewrite Qmult_0_l. lra.
  - assert (Hz : m == trackHeight)
      by (unfold m; rewrite Q.min_l by lra; apply Q.max_r; lra).
    rewrite Hz. field. intros Hz0. lra.
Qed.

Lemma updateValueFromPosition_range_witness :
  (0 < 100)%Q /\ (updateValueFromPosition 0 100 150 == 0)%Q.
Proof.
  assert (H : (0 < 100)%Q) by (vm_compute; reflexivity).
  split; [exact H|].
  destruct (updateValueFromPosition_range 0 100 150 H) as (_ & _ & H3).
  apply H3. vm_compute. discriminate.
Defined.

End PromptsProofs.

(** ** The settings panel *)

Module SettingsProofs.
Import Settings.

Lemma lookupProp_setProp (cfg : Config) (k k' : string) (v : JsVal) :
  lookupProp (setProp cfg k v) k' =
  if String.eqb k k' then Some v else lookupProp cfg k'.
Proof.
  induction cfg as [|[k0 v0] rest IH]; cbn.
  - destruct (String.eqb k k'); reflexivity.
  - destruct (String.eqb k0 k) eqn:E0.
    + apply String.eqb_eq in E0; subst k0. cbn.
      destruct (String.eqb k k'); reflexivity.
    + cbn. rewrite IH.
      destruct (String.eqb k0 k') eqn:E1; [|reflexivity].
      apply String.eqb_eq in E1; subst k'.
      destruct (String.eqb k k0) eqn:E2; [|reflexivity].
      apply String.eqb_eq in E2; subst k0. rewrite String.eqb_refl in E0. discriminate.
Qed.

(** A change in a range or number input of the settings panel whose [min]
    and [max] are numbers with [min <= max] touches only the input's own
    key: an empty or unparsable entry clears it to [undefined], and a number
    is stored clamped to [[min, max]], unchanged when already inside. *)
Theorem setConfigFromInput_clamps (target : InputEl) (cfg : Config) (lo hi : Q) :
  String.eqb (inputType target) "range" || String.eqb (inputType target) "number" = true ->
  inputMin target = Some lo -> inputMax target = Some hi -> (lo <= hi)%Q ->
  let cfg' := setConfigFromInput target cfg in
  (forall k, k <> inputId target -> lookupProp cfg' k = lookupProp cfg k) /\
  (inputValue target = EmptyString \/ inputNumber target = None ->
     lookupProp cfg' (inputId target) = Some JUndefined) /\
  (forall q, inputValue target <> EmptyString -> inputNumber target = Some q ->
     exists c, lookupProp cfg' (inputId target) = Some (JNum (Some c)) /\
       (lo <= c <= hi)%Q /\
       ((lo <= q <= hi)%Q -> (c == q)%Q) /\ ((q < lo)%Q -> (c == lo)%Q) /\
       ((hi < q)%Q -> (c == hi)%Q)).
Proof.
  intros Ht Hlo Hhi Hle. cbv zeta. unfold setConfigFromInput. rewrite Ht.
  split; [|split].
  - intros k Hk. rewrite lookupProp_setProp.
    destruct (String.eqb (inputId target) k) eqn:E; [|reflexivity].
    apply String.eqb_eq in E. congruence.
  - intros Hv. rewrite lookupProp_setProp, String.eqb_refl.
    destruct Hv as [Hv|Hv].
    + rewrite Hv. reflexivity.
    + destruct (String.eqb (inputValue target) "") ; [reflexivity|]. rewrite Hv. reflexivity.
  - intros q Hv Hq. rewrite lookupProp_setProp, String.eqb_refl.
    destruct (String.eqb (inputValue target) "") eqn:E.
    + apply String.eqb_eq in E. contradiction.
    + rewrite Hq, Hlo, Hhi. cbn [jsMin jsMax].
      exists (Qmax lo (Qmin hi q)). split; [reflexivity|].
      split; [apply PromptsProofs.clamp_range; exact Hle|].
      split; [|split].
      * intros Hin. rewrite Q.min_r by lra. apply Q.max_r. lra.
      * intros Hlt. rewrite Q.min_r by lra. apply Q.max_l. lra.
      * intros Hgt. rewrite Q.min_l by lra. apply Q.max_r. exact Hle.
Qed.

Lemma setConfigFromInput_clamps_witness :
  let t := mkInputEl "range" "guidance" false "9" (Some 9%Q) (Some 0%Q) (Some 6%Q) in
  (String.eqb (inputType t) "range" || String.eqb (inputType t) "number" = true /\
   inputMin t = Some 0%Q /\ inputMax t = Some 6%Q /\ (0 <= 6)%Q) /\
  exists c, lookupProp (setConfigFromInput t [("guidance"%string, JNum (Some 4%Q))])
              (inputId t) = Some (JNum (Some c)) /\ (c == 6)%Q.
Proof.
  cbv zeta.
  assert (H1 : String.eqb "range" "range" || String.eqb "range" "number" = true)
    by reflexivity.
  assert (H4 : (0 <= 6)%Q) by (vm_compute; discriminate).
  split; [split; [exact H1|split; [reflexivity|split; [reflexivity|exact H4]]]|].
  destruct (setConfigFromInput_clamps
              (mkInputEl "range" "guidance" false "9" (Some 9%Q) (Some 0%Q) (Some 6%Q))
              [("guidance"%string, JNum (Some 4%Q))] 0%Q 6%Q H1 eq_refl eq_refl H4)
    as (_ & _ & H).
  destruct (H 9%Q ltac:(discriminate) eq_refl) as (c & Hc & _ & _ & _ & Hhi).
  exists c. split; [exact Hc|]. apply Hhi. vm_compute. reflexivity.
Defined.

End SettingsProofs.

(** ** [formatDuration] *)

Module FormatProofs.
Import Format.

Lemma padStart2_twoDigits_table :
  forallb (fun k => String.eqb (padStart2 (zString (Z.of_nat k)))
                               (twoDigits (Z.of_nat k))) (seq 0 100) = true.
Proof. vm_compute. reflexivity. Qed.

Lemma padStart2_twoDigits (n : Z) :
  0 <= n < 100 -> padStart2 (zString n) = twoDigits n.
Proof.
  intros Hn. pose proof padStart2_twoDigits_table as H.
  rewrite forallb_forall in H. specialize (H (Z.to_nat n)).
  rewrite Z2Nat.id in H by lia. apply String.eqb_eq, H, in_seq. lia.
Qed.

Lemma Qfloor_unique (z : Z) (x : Q) :
  (inject_Z z <= x)%Q -> (x < inject_Z (z + 1))%Q -> Qfloor x = z.
Proof.
  intros H1 H2. apply Z.le_antisymm.
  - assert (Qfloor x < z + 1); [|lia]. rewrite Zlt_Qlt.
    eapply Qle_lt_trans; [apply Qfloor_le | exact H2].
  - rewrite <- (Qfloor_Z z). apply Qfloor_resp_le. exact H1.
Qed.

Lemma Qfloor_div60 (s : Q) : Qfloor (s / 60) = Qfloor s / 60.
Proof.
  pose proof (Qfloor_le s) as Hl. pose proof (Qlt_floor s) as Hu.
  set (n := Qfloor s) in *.
  pose proof (Z.div_mod n 60 ltac:(lia)) as Hd.
  pose proof (Z.mod_pos_bound n 60 ltac:(lia)) as Hm.
  set (q := n / 60) in *. set (r := n mod 60) in *.
  rewrite Hd in Hl, Hu.
  rewrite !inject_Z_plus, !inject_Z_mult in Hl. rewrite !inject_Z_plus, !inject_Z_mult in Hu.
  assert (Hr0 : (0 <= inject_Z r)%Q) by (change 0%Q with (inject_Z 0); rewrite <- Zle_Qle; lia).
  assert (Hr1 : (inject_Z r <= 59)%Q) by (change 59%Q with (inject_Z 59); rewrite <- Zle_Qle; lia).
  change (inject_Z 60) with 60%Q in Hl, Hu. change (inject_Z 1) with 1%Q in Hu.
  apply Qfloor_unique.
  - apply Qle_shift_div_l; [reflexivity|]. lra.
  - apply Qlt_shift_div_r; [reflexivity|].
    rewrite inject_Z_plus. change (inject_Z 1) with 1%Q. lra.
Qed.

Lemma Qfloor_jsRem60 (s : Q) : (0 <= s)%Q -> Qfloor (jsRem s 60) = Qfloor s mod 60.
Proof.
  intros Hs. unfold jsRem.
  assert (Ht : Qle_bool 0 (s / 60) = true).
  { apply Qle_bool_iff, Qle_shift_div_l; [reflexivity|]. lra. }
  rewrite Ht, Qfloor_div60.
  pose proof (Qfloor_le s) as Hl. pose proof (Qlt_floor s) as Hu.
  set (n := Qfloor s) in *.
  pose proof (Z.div_mod n 60 ltac:(lia)) as Hd.
  set (q := n / 60) in *. set (r := n mod 60) in *.
  rewrite Hd in Hl, Hu.
  rewrite !inject_Z_plus, !inject_Z_mult in Hl. rewrite !inject_Z_plus, !inject_Z_mult in Hu.
  change (inject_Z 60) with 60%Q in Hl, Hu. change (inject_Z 1) with 1%Q in Hu.
  apply Qfloor_unique.
  - lra.
  - rewrite inject_Z_plus. change (inject_Z 1) with 1%Q. lra.
Qed.

(** [formatDuration] shows a time of [s] seconds, [0 <= s < 6000] (under
    100 minutes), as [MM:SS]: two digits of the whole minutes, a colon and
    two digits of the remaining whole seconds. *)
Theorem formatDuration_mmss (s : Q) :
  (0 <= s < 6000)%Q ->
  formatDuration s =
  (twoDigits (Qfloor s / 60) ++ ":" ++ twoDigits (Qfloor s mod 60))%string.
Proof.
  intros [H0 H1]. unfold formatDuration.
  rewrite Qfloor_div60, Qfloor_jsRem60 by exact H0.
  assert (Hn0 : 0 <= Qfloor s).
  { rewrite <- (Qfloor_Z 0). apply Qfloor_resp_le. exact H0. }
  assert (Hn1 : Qfloor s < 6000).
  { rewrite Zlt_Qlt. eapply Qle_lt_trans; [apply Qfloor_le | exact H1]. }
  rewrite (padStart2_twoDigits (Qfloor s / 60)) by (split; [apply Z.div_pos|apply Z.div_lt_upper_bound]; lia).
  rewrite (padStart2_twoDigits (Qfloor s mod 60)) by (pose proof (Z.mod_pos_bound (Qfloor s) 60); lia).
  reflexivity.
Qed.

Lemma formatDuration_mmss_witness :
  (0 <= 125#2 < 6000)%Q /\
  formatDuration (125#2) =
  (twoDigits (Qfloor (125#2) / 60) ++ ":" ++ twoDigits (Qfloor (125#2) mod 60))%string.
Proof.
  assert (H : (0 <= 125#2 < 6000)%Q) by (vm_compute; split; [discriminate | reflexivity]).
  split; [exact H|]. exact (formatDuration_mmss (125#2) H).
Defined.

End FormatProofs.

(** ** MP3 export *)

Module Mp3Proofs.
Import Mp3.

Lemma int16Samples_spec : forall bytes : list Z,
  List.length (int16Samples bytes) = (List.length bytes / 2)%nat /\
  forall i, (i < List.length bytes / 2)%nat ->
    nth i (int16Samples bytes) 0 =
    int16_le (nth (2 * i) bytes 0) (nth (2 * i + 1) bytes 0).
Proof.
  fix IH 1. intros [|lo [|hi rest]].
  - split; [reflexivity|]. cbn. lia.
  - split; [reflexivity|]. cbn. lia.
  - destruct (IH rest) as [Hl Hn].
    assert (Hlen : (List.length (lo :: hi :: rest) / 2 = S (List.length rest / 2))%nat).
    { cbn [List.length]. replace (S (S (List.length rest)))
        with (List.length rest + 1 * 2)%nat by lia.
      rewrite Nat.div_add by lia. lia. }
    rewrite Hlen. split; [cbn [int16Samples List.length]; rewrite Hl; reflexivity|].
    intros [|j] Hj; [reflexivity|].
    cbn [int16Samples nth]. rewrite Hn by lia.
    replace (2 * S j)%nat with (S (S (2 * j))) by lia. reflexivity.
Qed.

Lemma nth_map_seq (f : nat -> Z) (n i : nat) (d : Z) :
  (i < n)%nat -> nth i (map f (seq 0 n)) d = f i.
Proof.
  intros Hi. rewrite nth_indep with (d' := f 0%nat)
    by (rewrite length_map, length_seq; lia).
  rewrite map_nth, seq_nth by lia. reflexivity.
Qed.

(** How the MP3 export starts, by the received chunks: nothing happens when
    none was received; with an odd total byte count [new Int16Array] throws
    a [RangeError]; otherwise the worker receives two channels of
    [bytes / 4] samples at 48000 Hz each, sample [i] of the left channel
    read from bytes [4i], [4i+1] and of the right one from [4i+2], [4i+3]
    (so when the byte count is [2 mod 4], the last sample is dropped). *)
Theorem handleDownloadMp3_channels (chunks : list (list Z)) :
  let bytes := List.concat chunks in
  match handleDownloadMp3 chunks with
  | NoChunks => chunks = []
  | RangeError => chunks <> [] /\ Nat.odd (List.length bytes) = true
  | PostToWorker leftCh rightCh sampleRate =>
      chunks <> [] /\ Nat.even (List.length bytes) = true /\ sampleRate = 48000 /\
      List.length leftCh = (List.length bytes / 4)%nat /\
      List.length rightCh = (List.length bytes / 4)%nat /\
      forall i, (i < List.length bytes / 4)%nat ->
        nth i leftCh 0 = int16_le (nth (4 * i) bytes 0) (nth (4 * i + 1) bytes 0) /\
        nth i rightCh 0 = int16_le (nth (4 * i + 2) bytes 0) (nth (4 * i + 3) bytes 0)
  end.
Proof.
  cbn zeta. unfold handleDownloadMp3.
  destruct chunks as [|c cs] eqn:Ec; [reflexivity|]. rewrite <- Ec.
  assert (Hne : chunks <> []) by (rewrite Ec; discriminate).
  set (bytes := List.concat chunks).
  destruct (Nat.even (List.length bytes)) eqn:Ev; cbn [negb].
  - destruct (int16Samples_spec bytes) as [Hl Hn].
    assert (H4 : (List.length bytes / 4 = List.length bytes / 2 / 2)%nat)
      by (rewrite Nat.Div0.div_div; reflexivity).
    split; [exact Hne|]. split; [reflexivity|]. split; [reflexivity|].
    rewrite !length_map, !length_seq. rewrite Hl, H4.
    split; [reflexivity|]. split; [reflexivity|].
    intros i Hi.
    assert (Hi2 : (i * 2 < List.length bytes / 2)%nat).
    { pose proof (Nat.div_mod (List.length bytes / 2) 2 ltac:(lia)). nia. }
    assert (Hi3 : (i * 2 + 1 < List.length bytes / 2)%nat).
    { pose proof (Nat.div_mod (List.length bytes / 2) 2 ltac:(lia)). nia. }
    rewrite !nth_map_seq by lia. cbn beta.
    rewrite (Hn _ Hi2), (Hn _ Hi3).
    replace (2 * (i * 2))%nat with (4 * i)%nat by lia.
    replace (2 * (i * 2 + 1))%nat with (4 * i + 2)%nat by lia.
    replace (4 * i + 2 + 1)%nat with (4 * i + 3)%nat by lia.
    split; reflexivity.
  - split; [exact Hne|]. rewrite <- Nat.negb_even, Ev. reflexivity.
Qed.

Lemma encodeBlocks_length (l r : list Z) (i : nat) :
  List.length (encodeBlocks l r i) = ((List.length l - i + 1151) / 1152)%nat.
Proof.
  funelim (encodeBlocks l r i).
  - cbn [List.length]. rewrite H. unfold sampleBlockSize.
    destruct (Nat.le_gt_cases (List.length l) (i + 1152)) as [Hle|Hgt].
    + replace (List.length l - (i + 1152))%nat with 0%nat by lia.
      change (S ((0 + 1151) / 1152))%nat with 1%nat.
      apply Nat.div_unique with (List.length l - i - 1)%nat; lia.
    + replace (List.length l - i + 1151)%nat
        with ((List.length l - (i + 1152) + 1151) + 1 * 1152)%nat by lia.
      rewrite Nat.div_add by lia. lia.
  - cbn. replace (List.length l - i)%nat with 0%nat by lia. reflexivity.
Qed.

Lemma encodeBlocks_concat (l r : list Z) (i : nat) :
  List.length r = List.length l ->
  List.concat (map fst (encodeBlocks l r i)) = skipn i l /\
  List.concat (map snd (encodeBlocks l r i)) = skipn i r.
Proof.
  intros Hlr. funelim (encodeBlocks l r i).
  - destruct (H Hlr) as [H1 H2]. cbn [map List.concat fst snd].
    rewrite H1, H2. unfold subarray.
    replace (i + sampleBlockSize - i)%nat with sampleBlockSize by lia.
    rewrite (Nat.add_comm i sampleBlockSize).
    rewrite <- !(skipn_skipn sampleBlockSize i), !firstn_skipn. split; reflexivity.
  - cbn. rewrite !skipn_all2 by lia. split; reflexivity.
Qed.

Lemma encodeBlocks_sizes (l r : list Z) (i : nat) :
  List.length r = List.length l ->
  Forall (fun b => (0 < List.length (fst b) <= 1152)%nat /\
                   List.length (snd b) = List.length (fst b)) (encodeBlocks l r i) /\
  Forall (fun b => List.length (fst b) = 1152%nat) (removelast (encodeBlocks l r i)).
Proof.
  intros Hlr. funelim (encodeBlocks l r i).
  - destruct (H Hlr) as [H1 H2].
    assert (Hb : List.length (subarray l i (i + sampleBlockSize)) =
                 Nat.min 1152 (List.length l - i)).
    { unfold subarray, sampleBlockSize. rewrite length_firstn, length_skipn.
      f_equal. lia. }
    assert (Hbr : List.length (subarray r i (i + sampleBlockSize)) =
                  Nat.min 1152 (List.length l - i)).
    { unfold subarray, sampleBlockSize. rewrite length_firstn, length_skipn.
      rewrite Hlr. f_equal. lia. }
    split.
    + constructor; [cbn [fst snd]; rewrite Hb, Hbr; lia | exact H1].
    + pose proof (encodeBlocks_length l r (i + sampleBlockSize)) as Hn.
      destruct (encodeBlocks l r (i + sampleBlockSize)) as [|b' bs'] eqn:Eb.
      * constructor.
      * cbn [removelast]. constructor; [|exact H2].
        cbn [fst]. rewrite Hb. cbn [List.length] in Hn. unfold sampleBlockSize in Hn.
        assert (Hgt : (i + 1152 < List.length l)%nat).
        { destruct (Nat.le_gt_cases (List.length l) (i + 1152)); [|assumption].
          replace (List.length l - (i + 1152))%nat with 0%nat in Hn by lia.
          cbn in Hn. discriminate. }
        lia.
  - split; constructor.
Qed.

(** The worker hands the encoder the two channels in consecutive blocks of
    1152 samples: for channels of equal length [n], there are
    [ceil(n / 1152)] blocks, every block holds 1 to 1152 samples of each
    channel (as many of the one as of the other), all blocks but the last
    hold exactly 1152, and the blocks put end to end give back each channel
    whole. *)
Theorem encodeBlocks_split (l r : list Z) :
  List.length r = List.length l ->
  let bs := encodeBlocks l r 0 in
  List.concat (map fst bs) = l /\ List.concat (map snd bs) = r /\
  List.length bs = ((List.length l + 1151) / 1152)%nat /\
  Forall (fun b => (0 < List.length (fst b) <= 1152)%nat /\
                   List.length (snd b) = List.length (fst b)) bs /\
  Forall (fun b => List.length (fst b) = 1152%nat) (removelast bs).
Proof.
  intros Hlr. cbn zeta.
  destruct (encodeBlocks_concat l r 0 Hlr) as [H1 H2].
  destruct (encodeBlocks_sizes l r 0 Hlr) as [H3 H4].
  rewrite encodeBlocks_length, Nat.sub_0_r.
  split; [exact H1|]. split; [exact H2|]. split; [reflexivity|].
  split; [exact H3 | exact H4].
Qed.

Lemma encodeBlocks_split_witness :
  List.length [4; 5; 6] = List.length [1; 2; 3] /\
  List.concat (map fst (encodeBlocks [1; 2; 3] [4; 5; 6] 0)) = [1; 2; 3] /\
  List.concat (map snd (encodeBlocks [1; 2; 3] [4; 5; 6] 0)) = [4; 5; 6].
Proof.
  assert (H : List.length [4; 5; 6] = List.length [1; 2; 3]) by reflexivity.
  split; [exact H|].
  destruct (encodeBlocks_split [1; 2; 3] [4; 5; 6] H) as (H1 & H2 & _).
  split; [exact H1 | exact H2].
Defined.

End Mp3Proofs.

(** ** The overlay scrollbar *)

Module ScrollbarProofs.
Import Scrollbar.

(** With overflowing content ([0 < clientHeight < scrollHeight]) and a
    [scrollTop] within the scrollable range, [updateScrollbar] shows the
    thumb, shorter than the track and of positive height, and keeps it
    inside the track; with the content scrolled to its end, the thumb ends
    at the track's bottom. *)
Theorem updateScrollbar_thumb_in_track (scrollTop scrollHeight clientHeight : Q)
  (sb : ScrollbarState) :
  (0 < clientHeight)%Q -> (clientHeight < scrollHeight)%Q ->
  (0 <= scrollTop <= scrollHeight - clientHeight)%Q ->
  let sb' := updateScrollbar scrollTop scrollHeight clientHeight sb in
  hasOverflow sb' = true /\
  (0 < thumbHeight sb' < clientHeight)%Q /\
  (0 <= thumbTop sb')%Q /\
  (thumbTop sb' + thumbHeight sb' <= clientHeight)%Q /\
  (scrollTop == scrollHeight - clientHeight ->
   thumbTop sb' + thumbHeight sb' == clientHeight)%Q.
Proof.
  intros HC HH Hs. unfold updateScrollbar. cbn zeta.
  assert (Hb : Qle_bool scrollHeight clientHeight = false).
  { destruct (Qle_bool scrollHeight clientHeight) eqn:E; [|reflexivity].
    apply Qle_bool_iff in E. lra. }
  rewrite Hb. cbn [negb hasOverflow thumbHeight thumbTop].
  assert (HH0 : (0 < scrollHeight)%Q) by lra.
  assert (Hk : (0 < / scrollHeight)%Q) by (apply Qinv_lt_0_compat; exact HH0).
  assert (Hk1 : (scrollHeight * / scrollHeight == 1)%Q)
    by (apply Qmult_inv_r; intros E; lra).
  unfold Qdiv. set (k := (/ scrollHeight)%Q) in *.
  assert (Hsk : (0 <= scrollTop * k)%Q) by (apply Qmult_le_0_compat; lra).
  assert (Hck : (clientHeight * k < 1)%Q).
  { rewrite <- Hk1. apply Qmult_lt_r; assumption. }
  assert (Hsck : ((scrollTop + clientHeight) * k <= 1)%Q).
  { rewrite <- Hk1. apply Qmult_le_r; [exact Hk | lra]. }
  split; [reflexivity|]. split; [split|split; [|split]].
  - nra.
  - nra.
  - apply Qmult_le_0_compat; lra.
  - setoid_replace (scrollTop * k * clientHeight + clientHeight * k * clientHeight)%Q
      with ((scrollTop + clientHeight) * k * clientHeight)%Q by ring.
    nra.
  - intros E.
    setoid_replace (scrollTop * k * clientHeight + clientHeight * k * clientHeight)%Q
      with ((scrollTop + clientHeight) * k * clientHeight)%Q by ring.
    setoid_replace (scrollTop + clientHeight)%Q with scrollHeight by lra.
    rewrite Hk1. ring.
Qed.

Lemma updateScrollbar_thumb_in_track_witness :
  (0 < 100)%Q /\ (100 < 300)%Q /\ (0 <= 50 <= 300 - 100)%Q /\
  (thumbTop (updateScrollbar 50 300 100 (mkScrollbarState false 0 0)) +
   thumbHeight (updateScrollbar 50 300 100 (mkScrollbarState false 0 0)) <= 100)%Q.
Proof.
  assert (H1 : (0 < 100)%Q) by (vm_compute; reflexivity).
  assert (H2 : (100 < 300)%Q) by (vm_compute; reflexivity).
  assert (H3 : (0 <= 50 <= 300 - 100)%Q) by (vm_compute; split; discriminate).
  split; [exact H1|]. split; [exact H2|]. split; [exact H3|].
  destruct (updateScrollbar_thumb_in_track 50 300 100 (mkScrollbarState false 0 0) H1 H2 H3)
    as (_ & _ & _ & H4 & _).
  exact H4.
Defined.

(** Dragging the scrollbar thumb by [dy] pixels moves it by [dy]: the
    [scrollTop] that [handlePointerMove] assigns, read back by
    [updateScrollbar] (the content filling its container, so both have the
    same [clientHeight]), puts the thumb [dy] below where it started, as
    long as that [scrollTop] stays within the scrollable range (the browser
    clamps it otherwise). *)
Theorem drag_moves_thumb_by_dy (startScrollTop dy scrollHeight clientHeight : Q)
  (sb0 : ScrollbarState) :
  (0 < clientHeight)%Q -> (clientHeight < scrollHeight)%Q ->
  let sb := updateScrollbar startScrollTop scrollHeight clientHeight sb0 in
  let st := handlePointerMove startScrollTop dy scrollHeight clientHeight clientHeight sb in
  (0 <= st <= scrollHeight - clientHeight)%Q ->
  (thumbTop (updateScrollbar st scrollHeight clientHeight sb) == thumbTop sb + dy)%Q.
Proof.
  intros HC HH. unfold handlePointerMove, updateScrollbar. cbn zeta.
  assert (Hb : Qle_bool scrollHeight clientHeight = false).
  { destruct (Qle_bool scrollHeight clientHeight) eqn:E; [|reflexivity].
    apply Qle_bool_iff in E. lra. }
  rewrite Hb. cbn [negb hasOverflow thumbHeight thumbTop]. intros _.
  field. split; [intros E; lra|].
  intros E. nra.
Qed.

Lemma drag_moves_thumb_by_dy_witness :
  let sb := updateScrollbar 50 300 100 (mkScrollbarState false 0 0) in
  let st := handlePointerMove 50 10 300 100 100 sb in
  (0 < 100)%Q /\ (100 < 300)%Q /\ (0 <= st <= 300 - 100)%Q /\
  (thumbTop (updateScrollbar st 300 100 sb) == thumbTop sb + 10)%Q.
Proof.
  cbv zeta.
  assert (H1 : (0 < 100)%Q) by (vm_compute; reflexivity).
  assert (H2 : (100 < 300)%Q) by (vm_compute; reflexivity).
  assert (H3 : (0 <= handlePointerMove 50 10 300 100 100
                        (updateScrollbar 50 300 100 (mkScrollbarState false 0 0))
                  <= 300 - 100)%Q)
    by (vm_compute; split; discriminate).
  split; [exact H1|]. split; [exact H2|]. split; [exact H3|].
  exact (drag_moves_thumb_by_dy 50 10 300 100 (mkScrollbarState false 0 0) H1 H2 H3).
Defined.

End ScrollbarProofs.
